(** * msg_generate.go: the pack/unpack code generator of the dns package

    A shallow embedding of [src/msg_generate.go].  The generator walks the
    package scope, keeps the types that begin with an [RR_Header] (directly
    or through an embedded struct), and writes one [pack] and one [unpack]
    method per kept type, driven by the dns struct tag of each field.

    The [bytes.Buffer] the generator prints into is modelled as the list of
    the print calls made so far ([Emit]); [render] gives back the exact
    text of every call.  [log.Fatal*] and run-time panics are the two
    abnormal results of [outcome]. *)

From Stdlib Require Import String Ascii List ZArith Bool Arith Lia.
Import ListNotations.
Local Open Scope list_scope.
Local Open Scope string_scope.

(* ------------------------------------------------------------------ *)
(** ** Go strings                                                      *)
(* ------------------------------------------------------------------ *)

Module GoStrings.

(** The double quote and the line feed, the two bytes of the generator's
    literals that are written here by code. *)
Definition dq : string := String (ascii_of_nat 34) EmptyString.
Definition nl : string := String (ascii_of_nat 10) EmptyString.

(** [s[n:]] and [s[:n]] (for [n <= len(s)]). *)
Fixpoint drop (n : nat) (s : string) : string :=
  match n, s with
  | O, _ => s
  | S _, EmptyString => EmptyString
  | S n', String _ s' => drop n' s'
  end.

Fixpoint take (n : nat) (s : string) : string :=
  match n, s with
  | O, _ => EmptyString
  | S _, EmptyString => EmptyString
  | S n', String c s' => String c (take n' s')
  end.

(** [strings.HasPrefix(s, p)]. *)
Definition HasPrefix (s p : string) : bool := String.prefix p s.

(** [strings.HasSuffix(s, suf)]. *)
Definition HasSuffix (s suf : string) : bool :=
  (String.length suf <=? String.length s)%nat
  && String.eqb (drop (String.length s - String.length suf) s) suf.

(** [strings.TrimPrefix(s, p)]. *)
Definition TrimPrefix (s p : string) : string :=
  if HasPrefix s p then drop (String.length p) s else s.

(** [strings.TrimSuffix(s, suf)]. *)
Definition TrimSuffix (s suf : string) : string :=
  if HasSuffix s suf then take (String.length s - String.length suf) s else s.

(** [strings.Index(s, sep)]: the first position where [sep] starts. *)
Fixpoint Index_from (i : nat) (s sep : string) : option nat :=
  if String.prefix sep s then Some i
  else match s with
       | EmptyString => None
       | String _ s' => Index_from (S i) s' sep
       end.

Definition Index (s sep : string) : option nat := Index_from 0 s sep.

(** [strings.LastIndex(s, sep)]: the last position where [sep] starts,
    [-1] when there is none. *)
Fixpoint LastIndex_from (i : nat) (last : Z) (s sep : string) : Z :=
  let last' := if String.prefix sep s then Z.of_nat i else last in
  match s with
  | EmptyString => last'
  | String _ s' => LastIndex_from (S i) last' s' sep
  end.

Definition LastIndex (s sep : string) : Z := LastIndex_from 0 (-1) s sep.

(** [strings.Cut(s, sep)]. *)
Definition Cut (s sep : string) : string * string * bool :=
  match Index s sep with
  | Some i => (take i s, drop (i + String.length sep) s, true)
  | None => (s, EmptyString, false)
  end.

(** [fmt.Sprintf(format, args...)] for formats whose only verb is [%s].
    A verb without an argument prints as Go prints it. *)
Fixpoint Sprintf (format : string) (args : list string) : string :=
  match format with
  | String "%" (String "s" rest) =>
      match args with
      | a :: args' => a ++ Sprintf rest args'
      | [] => "%!s(MISSING)" ++ Sprintf rest []
      end
  | String c rest => String c (Sprintf rest args)
  | EmptyString => EmptyString
  end.

(** A byte that does not occur in a string. *)
Fixpoint free_of (c : ascii) (s : string) : bool :=
  match s with
  | EmptyString => true
  | String a s' => negb (Ascii.eqb a c) && free_of c s'
  end.

End GoStrings.
Import GoStrings.

(* ------------------------------------------------------------------ *)
(** ** go/types: types, struct fields, objects and scopes              *)
(* ------------------------------------------------------------------ *)

(** [types.BasicKind], the typed kinds. *)
Inductive BasicKind : Type :=
| Bool_ | Int | Int8 | Int16 | Int32 | Int64
| Uint | Uint8 | Uint16 | Uint32 | Uint64 | Uintptr
| Float32 | Float64 | Complex64 | Complex128 | String_ | UnsafePointer.

(** [types.Type].  A [Named] type carries the identity of its declaring
    object and its underlying type, which go/types keeps unnamed.  A field
    ([*types.Var] of a struct) is kept together with its tag, so that
    [Tag f] is [st.Tag(i)] for [f = st.Field(i)]. *)
Inductive GoType : Type :=
| Basic (k : BasicKind)
| Slice (elem : GoType)
| Pointer (elem : GoType)
| Struct (fields : list Field)
| Named (obj : string) (underlying : GoType)
with Field : Type :=
| mkField (Name : string) (Anonymous : bool) (Type_ : GoType) (Tag : string).

Definition Name (f : Field) : string := let 'mkField n _ _ _ := f in n.
Definition Anonymous (f : Field) : bool := let 'mkField _ a _ _ := f in a.
Definition Type_ (f : Field) : GoType := let 'mkField _ _ t _ := f in t.
Definition Tag (f : Field) : string := let 'mkField _ _ _ t := f in t.

(** A [*types.Struct] is its field list; [NumFields] is its length. *)
Definition StructT : Type := list Field.
Definition NumFields (st : StructT) : nat := List.length st.

(** [t.Underlying()]. *)
Definition Underlying (t : GoType) : GoType :=
  match t with
  | Named _ u => u
  | _ => t
  end.

Definition BasicKind_eqb (a b : BasicKind) : bool :=
  match a, b with
  | Bool_, Bool_ | Int, Int | Int8, Int8 | Int16, Int16 | Int32, Int32
  | Int64, Int64 | Uint, Uint | Uint8, Uint8 | Uint16, Uint16
  | Uint32, Uint32 | Uint64, Uint64 | Uintptr, Uintptr | Float32, Float32
  | Float64, Float64 | Complex64, Complex64 | Complex128, Complex128
  | String_, String_ | UnsafePointer, UnsafePointer => true
  | _, _ => false
  end.

(** [a == b] on [types.Type] values: the comparison of two interface
    values holding pointers.  A declared type has one [*types.Named], found
    again by the identity of its object; the basic types are the entries of
    [types.Typ]; a type literal is allocated where it is written and equals
    no other type. *)
Definition same_type (a b : GoType) : bool :=
  match a, b with
  | Named x _, Named y _ => String.eqb x y
  | Basic j, Basic k => BasicKind_eqb j k
  | _, _ => false
  end.

(** [types.Object]: what the generator reads of an object of the scope,
    its [Name()], [Exported()] and [Type()]. *)
Record Object : Type := mkObject {
  ObjName : string;
  Exported : bool;
  ObjType : GoType
}.

(** [*types.Scope]: the objects of the package, in the order of
    [scope.Names()]. *)
Definition Scope : Type := list Object.

Definition Names (scope : Scope) : list string := map ObjName scope.

Fixpoint Lookup (scope : Scope) (name : string) : option Object :=
  match scope with
  | [] => None
  | o :: rest => if String.eqb (ObjName o) name then Some o else Lookup rest name
  end.

(* ------------------------------------------------------------------ *)
(** ** Results of the generator                                        *)
(* ------------------------------------------------------------------ *)

(** A computation of the generator returns, stops in [log.Fatal*] with the
    printed arguments, or panics (a nil dereference or a failed type
    assertion). *)
Inductive outcome (A : Type) : Type :=
| Ret (a : A)
| Fatal (msg : list string)
| Panic.
Arguments Ret {A} a.
Arguments Fatal {A} msg.
Arguments Panic {A}.

Definition bind {A B : Type} (m : outcome A) (k : A -> outcome B) : outcome B :=
  match m with
  | Ret a => k a
  | Fatal msg => Fatal msg
  | Panic => Panic
  end.

Notation "x <- m ;; k" := (bind m (fun x => k))
  (at level 61, m at next level, right associativity).

Definition aborts {A : Type} (m : outcome A) : Prop :=
  match m with Ret _ => False | _ => True end.

(* ------------------------------------------------------------------ *)
(** ** getTypeStruct                                                   *)
(* ------------------------------------------------------------------ *)

(** [getTypeStruct(t, scope)]: the innermost struct and whether an
    embedded struct was resolved; [None] is the nil [*types.Struct].
    [scope.Lookup("RR_Header").Type()] panics when the scope has no such
    object. *)
Fixpoint getTypeStruct (t : GoType) (scope : Scope) {struct t}
  : outcome (option StructT * bool) :=
  match Underlying t with
  | Struct st =>
      match st with
      | [] => Ret (None, false)
      | f0 :: _ =>
          match Lookup scope "RR_Header" with
          | None => Panic
          | Some hdr =>
              if same_type (Type_ f0) (ObjType hdr) then Ret (Some st, false)
              else if Anonymous f0 then
                r <- getTypeStruct (Type_ f0) scope ;;
                Ret (fst r, true)
              else Ret (None, false)
          end
      end
  | _ => Ret (None, false)
  end.

(* ------------------------------------------------------------------ *)
(** ** The buffer: the print calls of the generator                    *)
(* ------------------------------------------------------------------ *)

(** One constructor per print site of [main].  [PackStep s field] is the
    call [o(s)] of the pack loop, the [Unpack*] and [ReadInt] constructors
    are the closures of the unpack loop. *)
Inductive Emit : Type :=
| Raw (text : string)
| PackFunc (name : string)
| PackStep (format field : string)
| PackSalt (field : string)
| PackReturn
| UnpackFunc (name : string)
| UnpackCursor
| UnpackField (field unpacker : string)
| UnpackFieldBuf (field unpacker : string)
| UnpackFieldRest (field unpacker : string)
| UnpackFieldLength (field unpacker len : string)
| ReadInt (type_ field : string)
| UnpackGateway
| EmptyCheck
| TrailingCheck
| UnpackReturn.

Definition packageHdr : string :=
  nl ++ "// Code generated by " ++ dq ++ "go run msg_generate.go" ++ dq
     ++ "; DO NOT EDIT." ++ nl ++ nl
     ++ "package dns" ++ nl ++ nl
     ++ "import " ++ dq ++ "golang.org/x/crypto/cryptobyte" ++ dq ++ nl ++ nl.

(** The error check printed by [o] in the pack loop. *)
Definition packErrCheck : string :=
  "if err != nil {" ++ nl ++ "return off, err" ++ nl ++ "}" ++ nl.

(** [errCheck()] of the unpack loop ([Fprintln] ends the line). *)
Definition errCheck : string := "if err != nil { return err }" ++ nl.

(** The format of the salt step (lines 159-166). *)
Definition saltFormat : string :=
  "// Only pack salt if value is not " ++ dq ++ "-" ++ dq ++ ", i.e. empty" ++ nl
  ++ "if rr.%s != " ++ dq ++ "-" ++ dq ++ " {" ++ nl
  ++ "  off, err = packStringHex(rr.%s, msg, off)" ++ nl
  ++ "  if err != nil {" ++ nl
  ++ "    return off, err" ++ nl
  ++ "  }" ++ nl
  ++ "}" ++ nl.

(** The text each print call appends to the buffer. *)
Definition render1 (e : Emit) : string :=
  match e with
  | Raw text => text
  | PackFunc name =>
      Sprintf ("func (rr *%s) pack(msg []byte, off int, compression compressionMap, compress bool) (off1 int, err error) {" ++ nl) [name]
  | PackStep format field => Sprintf format [field] ++ packErrCheck
  | PackSalt field => Sprintf saltFormat [field; field]
  | PackReturn => "return off, nil }" ++ nl ++ nl
  | UnpackFunc name =>
      Sprintf ("func (rr *%s) unpack(data, msgBuf []byte) (err error) {" ++ nl) [name]
  | UnpackCursor => "s := cryptobyte.String(data)" ++ nl
  | UnpackField field unpacker =>
      Sprintf ("rr.%s, err = %s(&s)" ++ nl) [field; unpacker] ++ errCheck
  | UnpackFieldBuf field unpacker =>
      Sprintf ("rr.%s, err = %s(&s, msgBuf)" ++ nl) [field; unpacker] ++ errCheck
  | UnpackFieldRest field unpacker =>
      Sprintf ("rr.%s, err = %s(&s, len(s))" ++ nl) [field; unpacker] ++ errCheck
  | UnpackFieldLength field unpacker len =>
      Sprintf ("rr.%s, err = %s(&s, int(rr.%s))" ++ nl) [field; unpacker; len] ++ errCheck
  | ReadInt type_ field =>
      Sprintf ("if !s.Read%s(&rr.%s) { return errUnpackOverflow }" ++ nl) [type_; field]
  | UnpackGateway =>
      "rr.GatewayAddr, rr.GatewayHost, err = unpackIPSECGateway(&s, msgBuf, rr.GatewayType)" ++ nl
      ++ errCheck
  | EmptyCheck => "if s.Empty() { return nil }" ++ nl
  | TrailingCheck => "if !s.Empty() { return errTrailingRData }" ++ nl
  | UnpackReturn => "return nil }" ++ nl ++ nl
  end.

(** [b.Bytes()]. *)
Definition render (b : list Emit) : string :=
  fold_right (fun e acc => render1 e ++ acc) EmptyString b.

(* ------------------------------------------------------------------ *)
(** ** Struct tags                                                     *)
(* ------------------------------------------------------------------ *)

(** The tag literal: dns, a colon, and k between double quotes. *)
Definition dnsTag (k : string) : string := "dns:" ++ dq ++ k ++ dq.

(** The same without the closing quote, for the [strings.HasPrefix]
    tests. *)
Definition dnsPrefix (k : string) : string := "dns:" ++ dq ++ k.

(** [structMember(s)]: the part after the last colon, without the closing
    quote.  [idx+1] is never past the end of [s]. *)
Definition structMember (s : string) : string :=
  let idx := LastIndex s ":" in
  TrimSuffix (drop (Z.to_nat (idx + 1)) s) dq.

(** [structTag(s)]. *)
Definition structTag (s : string) : string :=
  let s := TrimPrefix s (dnsPrefix "size-") in
  fst (fst (Cut s ":")).

Definition isSlice (t : GoType) : bool :=
  match t with Slice _ => true | _ => false end.

(* ------------------------------------------------------------------ *)
(** ** The pack loop                                                   *)
(* ------------------------------------------------------------------ *)

(** The switch over the tag of a slice field (lines 111-127). *)
Definition packSlice (name : string) (f : Field) : outcome (list Emit) :=
  let o := fun s => Ret [PackStep s (Name f)] in
  let tag := Tag f in
  if tag =? dnsTag "-" then Ret []
  else if tag =? dnsTag "txt" then
    o ("off, err = packStringTxt(rr.%s, msg, off)" ++ nl)
  else if tag =? dnsTag "opt" then
    o ("off, err = packDataOpt(rr.%s, msg, off)" ++ nl)
  else if tag =? dnsTag "nsec" then
    o ("off, err = packDataNsec(rr.%s, msg, off)" ++ nl)
  else if tag =? dnsTag "pairs" then
    o ("off, err = packDataSVCB(rr.%s, msg, off)" ++ nl)
  else if tag =? dnsTag "domain-name" then
    o ("off, err = packDataDomainNames(rr.%s, msg, off, compression, false)" ++ nl)
  else if tag =? dnsTag "apl" then
    o ("off, err = packDataApl(rr.%s, msg, off)" ++ nl)
  else Fatal [name; Name f; tag].

(** The inner switch on the basic kind, for an empty tag (lines 179-192).
    The type assertion panics on a type that is not [*types.Basic]. *)
Definition packBasic (name : string) (f : Field) : outcome (list Emit) :=
  let o := fun s => Ret [PackStep s (Name f)] in
  match Type_ f with
  | Basic Uint8 => o ("off, err = packUint8(rr.%s, msg, off)" ++ nl)
  | Basic Uint16 => o ("off, err = packUint16(rr.%s, msg, off)" ++ nl)
  | Basic Uint32 => o ("off, err = packUint32(rr.%s, msg, off)" ++ nl)
  | Basic Uint64 => o ("off, err = packUint64(rr.%s, msg, off)" ++ nl)
  | Basic String_ => o ("off, err = packString(rr.%s, msg, off)" ++ nl)
  | Basic _ => Fatal [name; Name f]
  | _ => Panic
  end.

(** The tagless switch of the other fields (lines 131-195); a
    [fallthrough] case runs the body of the next one. *)
Definition packScalar (name : string) (f : Field) : outcome (list Emit) :=
  let o := fun s => Ret [PackStep s (Name f)] in
  let tag := Tag f in
  if tag =? dnsTag "-" then Ret []
  else if tag =? dnsTag "cdomain-name" then
    o ("off, err = packDomainName(rr.%s, msg, off, compression, compress)" ++ nl)
  else if tag =? dnsTag "domain-name" then
    o ("off, err = packDomainName(rr.%s, msg, off, compression, false)" ++ nl)
  else if tag =? dnsTag "a" then
    o ("off, err = packDataA(rr.%s, msg, off)" ++ nl)
  else if tag =? dnsTag "aaaa" then
    o ("off, err = packDataAAAA(rr.%s, msg, off)" ++ nl)
  else if tag =? dnsTag "uint48" then
    o ("off, err = packUint48(rr.%s, msg, off)" ++ nl)
  else if tag =? dnsTag "txt" then
    o ("off, err = packString(rr.%s, msg, off)" ++ nl)
  else if HasPrefix tag (dnsPrefix "size-base32") then
    o ("off, err = packStringBase32(rr.%s, msg, off)" ++ nl)
  else if tag =? dnsTag "base32" then
    o ("off, err = packStringBase32(rr.%s, msg, off)" ++ nl)
  else if HasPrefix tag (dnsPrefix "size-base64") then
    o ("off, err = packStringBase64(rr.%s, msg, off)" ++ nl)
  else if tag =? dnsTag "base64" then
    o ("off, err = packStringBase64(rr.%s, msg, off)" ++ nl)
  else if HasPrefix tag (dnsPrefix "size-hex:SaltLength") then
    Ret [PackSalt (Name f)]
  else if HasPrefix tag (dnsPrefix "size-hex") then
    o ("off, err = packStringHex(rr.%s, msg, off)" ++ nl)
  else if tag =? dnsTag "hex" then
    o ("off, err = packStringHex(rr.%s, msg, off)" ++ nl)
  else if tag =? dnsTag "any" then
    o ("off, err = packStringAny(rr.%s, msg, off)" ++ nl)
  else if tag =? dnsTag "octet" then
    o ("off, err = packStringOctet(rr.%s, msg, off)" ++ nl)
  else if (tag =? dnsTag "ipsechost") || (tag =? dnsTag "amtrelayhost") then
    o ("off, err = packIPSECGateway(rr.GatewayAddr, rr.%s, msg, off, rr.GatewayType, compression, false)" ++ nl)
  else if tag =? "" then packBasic name f
  else Fatal [name; Name f; tag].

(** One iteration of the pack loop (lines 102-195). *)
Definition packField (name : string) (f : Field) : outcome (list Emit) :=
  if isSlice (Type_ f) then packSlice name f else packScalar name f.

(** [for i := 1; i < st.NumFields(); i++ { body }] over the fields
    [st.Field(i), st.Field(i+1), ...]; the first abnormal iteration ends
    the run. *)
Fixpoint fieldLoop (body : nat -> Field -> outcome (list Emit))
  (i : nat) (fs : list Field) : outcome (list Emit) :=
  match fs with
  | [] => Ret []
  | f :: rest =>
      e <- body i f ;;
      r <- fieldLoop body (S i) rest ;;
      Ret (e ++ r)%list
  end.

(** The pack method of one type (lines 100-197). *)
Definition packRoutine (name : string) (st : StructT) : outcome (list Emit) :=
  body <- fieldLoop (fun _ f => packField name f) 1 (tl st) ;;
  Ret (PackFunc name :: body ++ [PackReturn])%list.

(* ------------------------------------------------------------------ *)
(** ** The unpack loop                                                 *)
(* ------------------------------------------------------------------ *)

(** The [size-] branch (lines 233-247); it ends in [continue]. *)
Definition unpackSize (name : string) (f : Field) : outcome (list Emit) :=
  let member := structMember (Tag f) in
  let structTag := structTag (Tag f) in
  if structTag =? "hex" then
    Ret [UnpackFieldLength (Name f) "unpackStringHex" member]
  else if structTag =? "base32" then
    Ret [UnpackFieldLength (Name f) "unpackStringBase32" member]
  else if structTag =? "base64" then
    Ret [UnpackFieldLength (Name f) "unpackStringBase64" member]
  else Fatal [name; Name f; Tag f].

(** The switch of a slice field (lines 250-268); every case ends in
    [continue]. *)
Definition unpackSlice (name : string) (f : Field) : outcome (list Emit) :=
  let tag := Tag f in
  if tag =? dnsTag "-" then Ret []
  else if tag =? dnsTag "txt" then Ret [UnpackField (Name f) "unpackStringTxt"]
  else if tag =? dnsTag "opt" then Ret [UnpackField (Name f) "unpackDataOpt"]
  else if tag =? dnsTag "nsec" then Ret [UnpackField (Name f) "unpackDataNsec"]
  else if tag =? dnsTag "pairs" then Ret [UnpackField (Name f) "unpackDataSVCB"]
  else if tag =? dnsTag "domain-name" then
    Ret [UnpackFieldBuf (Name f) "unpackDataDomainNames"]
  else if tag =? dnsTag "apl" then Ret [UnpackField (Name f) "unpackDataApl"]
  else Fatal [name; Name f; tag].

(** The inner switch on the basic kind (lines 301-314). *)
Definition unpackBasic (name : string) (f : Field) : outcome (list Emit) :=
  match Type_ f with
  | Basic Uint8 => Ret [ReadInt "Uint8" (Name f)]
  | Basic Uint16 => Ret [ReadInt "Uint16" (Name f)]
  | Basic Uint32 => Ret [ReadInt "Uint32" (Name f)]
  | Basic Uint64 => Ret [ReadInt "Uint64" (Name f)]
  | Basic String_ => Ret [UnpackField (Name f) "unpackString"]
  | Basic _ => Fatal [name; Name f]
  | _ => Panic
  end.

(** The switch of the other fields (lines 271-317).  [None] is the
    [continue fieldLoop] of the ignored tag; the other cases leave the
    switch and reach line 318. *)
Definition unpackScalar (name : string) (f : Field)
  : outcome (option (list Emit)) :=
  let tag := Tag f in
  let out := fun e => Ret (Some [e]) in
  if tag =? dnsTag "-" then Ret None
  else if (tag =? dnsTag "cdomain-name") || (tag =? dnsTag "domain-name") then
    out (UnpackFieldBuf (Name f) "unpackDomainName")
  else if tag =? dnsTag "a" then out (UnpackField (Name f) "unpackDataA")
  else if tag =? dnsTag "aaaa" then out (UnpackField (Name f) "unpackDataAAAA")
  else if tag =? dnsTag "uint48" then out (ReadInt "Uint48" (Name f))
  else if tag =? dnsTag "txt" then out (UnpackField (Name f) "unpackString")
  else if tag =? dnsTag "base32" then
    out (UnpackFieldRest (Name f) "unpackStringBase32")
  else if tag =? dnsTag "base64" then
    out (UnpackFieldRest (Name f) "unpackStringBase64")
  else if tag =? dnsTag "hex" then
    out (UnpackFieldRest (Name f) "unpackStringHex")
  else if tag =? dnsTag "any" then
    out (UnpackFieldRest (Name f) "unpackStringAny")
  else if tag =? dnsTag "octet" then
    out (UnpackField (Name f) "unpackStringOctet")
  else if (tag =? dnsTag "ipsechost") || (tag =? dnsTag "amtrelayhost") then
    out UnpackGateway
  else if tag =? "" then
    e <- unpackBasic name f ;; Ret (Some e)
  else Fatal [name; Name f; tag].

(** One iteration of the unpack loop (lines 209-321) at index [i] of a
    struct of [n] fields. *)
Definition unpackFieldAt (name : string) (n i : nat) (f : Field)
  : outcome (list Emit) :=
  if HasPrefix (Tag f) (dnsPrefix "size-") then unpackSize name f
  else if isSlice (Type_ f) then unpackSlice name f
  else
    r <- unpackScalar name f ;;
    match r with
    | None => Ret []
    | Some e => Ret (e ++ (if (i <? n - 1)%nat then [EmptyCheck] else []))%list
    end.

(** The unpack method of one type (lines 205-324). *)
Definition unpackRoutine (name : string) (st : StructT) : outcome (list Emit) :=
  body <- fieldLoop (unpackFieldAt name (NumFields st)) 1 (tl st) ;;
  Ret (UnpackFunc name :: UnpackCursor :: body ++ [TrailingCheck; UnpackReturn])%list.

(* ------------------------------------------------------------------ *)
(** ** main                                                            *)
(* ------------------------------------------------------------------ *)

(** [o == nil] on the result of a lookup. *)
Definition isNil (o : option Object) : bool :=
  match o with None => true | Some _ => false end.

(** The collection loop (lines 71-90) over [scope.Names()]. *)
Fixpoint collect (scope : Scope) (names : list string)
  : outcome (list string) :=
  match names with
  | [] => Ret []
  | name :: rest =>
      match Lookup scope name with
      | None => collect scope rest
      | Some o =>
          if negb (Exported o) then collect scope rest
          else
            r <- getTypeStruct (ObjType o) scope ;;
            match fst r with
            | None => collect scope rest
            | Some _ =>
                if name =? "PrivateRR" then collect scope rest
                else
                  if isNil (Lookup scope ("Type" ++ ObjName o))
                     && negb (ObjName o =? "RFC3597")
                  then Fatal [Sprintf "Constant Type%s does not exist." [ObjName o]]
                  else l <- collect scope rest ;; Ret (ObjName o :: l)
            end
      end
  end.

(** The head of both emission loops (lines 97-98 and 202-203):
    [o.Type()] on a nil object and [st.NumFields()] on a nil struct
    panic. *)
Definition structOf (scope : Scope) (name : string) : outcome StructT :=
  match Lookup scope name with
  | None => Panic
  | Some o =>
      r <- getTypeStruct (ObjType o) scope ;;
      match fst r with
      | None => Panic
      | Some st => Ret st
      end
  end.

(** [for _, name := range namedTypes { ... }] with the given method
    emitter. *)
Fixpoint emitLoop (routine : string -> StructT -> outcome (list Emit))
  (scope : Scope) (namedTypes : list string) : outcome (list Emit) :=
  match namedTypes with
  | [] => Ret []
  | name :: rest =>
      st <- structOf scope name ;;
      e <- routine name st ;;
      r <- emitLoop routine scope rest ;;
      Ret (e ++ r)%list
  end.

(** The buffer at line 326. *)
Definition generate (scope : Scope) : outcome (list Emit) :=
  namedTypes <- collect scope (Names scope) ;;
  packs <- emitLoop packRoutine scope namedTypes ;;
  unpacks <- emitLoop unpackRoutine scope namedTypes ;;
  Ret (Raw packageHdr
       :: Raw ("// pack*() functions" ++ nl ++ nl)
       :: (packs ++ Raw ("// unpack*() functions" ++ nl ++ nl) :: unpacks)%list).

Section Main.

(** [format.Source] of go/format: the formatted source or an error. *)
Variable format_Source : string -> string + string.

(** [main] from the loaded package scope to the bytes written to
    [zmsg.go]. *)
Definition main (scope : Scope) : outcome string :=
  b <- generate scope ;;
  match format_Source (render b) with
  | inl res => Ret res
  | inr err => Fatal [err]
  end.

End Main.

(* ------------------------------------------------------------------ *)
(** ** Reading the buffer: steps of the emitted methods                *)
(* ------------------------------------------------------------------ *)

(** The prints of the pack loop that pack a field. *)
Definition isPackStep (e : Emit) : bool :=
  match e with
  | PackStep _ _ | PackSalt _ => true
  | _ => false
  end.

(** The prints of the unpack loop that read a field. *)
Definition isFieldStep (e : Emit) : bool :=
  match e with
  | UnpackField _ _ | UnpackFieldBuf _ _ | UnpackFieldRest _ _
  | UnpackFieldLength _ _ _ | ReadInt _ _ | UnpackGateway => true
  | _ => false
  end.

Definition isEmptyCheck (e : Emit) : bool :=
  match e with EmptyCheck => true | _ => false end.

Definition count (p : Emit -> bool) (b : list Emit) : nat :=
  List.length (filter p b).

(** The ignored marker. *)
Definition ignored (f : Field) : bool := Tag f =? dnsTag "-".

(** The fields after the header that are not ignored. *)
Definition liveFields (st : StructT) : list Field :=
  filter (fun f => negb (ignored f)) (tl st).

(** The fields the text of a step selects on [rr]. *)
Definition selects (e : Emit) : list string :=
  match e with
  | PackStep format field =>
      if format =? ("off, err = packIPSECGateway(rr.GatewayAddr, rr.%s, msg, off, rr.GatewayType, compression, false)" ++ nl)
      then ["GatewayAddr"; field; "GatewayType"] else [field]
  | PackSalt field => [field]
  | UnpackField field _ | UnpackFieldBuf field _ | UnpackFieldRest field _
  | ReadInt _ field => [field]
  | UnpackFieldLength field _ len => [field; len]
  | UnpackGateway => ["GatewayAddr"; "GatewayHost"; "GatewayType"]
  | _ => []
  end.

(** A step compiles against a struct when every field it selects is a
    field of the struct. *)
Definition wellFormed (fields : list string) (e : Emit) : Prop :=
  forall x, In x (selects e) -> In x fields.

(* ------------------------------------------------------------------ *)
(** ** The spec's reading of some steps                                *)
(* ------------------------------------------------------------------ *)

(** The rule of the schema extractor in the spec's words: a non-empty
    struct whose first field has the header type, or whose first field is
    embedded and has a type that satisfies the rule. *)
Inductive isRecord (scope : Scope) : GoType -> Prop :=
| record_header : forall t f0 rest hdr,
    Underlying t = Struct (f0 :: rest) ->
    Lookup scope "RR_Header" = Some hdr ->
    same_type (Type_ f0) (ObjType hdr) = true ->
    isRecord scope t
| record_embedded : forall t f0 rest,
    Underlying t = Struct (f0 :: rest) ->
    Anonymous f0 = true ->
    isRecord scope (Type_ f0) ->
    isRecord scope t.

(** The closed vocabulary of the spec, by field shape. *)
Definition sliceVocabulary : list string :=
  map dnsTag ["-"; "txt"; "opt"; "nsec"; "pairs"; "domain-name"; "apl"].

Definition scalarVocabulary : list string :=
  map dnsTag ["-"; "cdomain-name"; "domain-name"; "a"; "aaaa"; "uint48";
              "txt"; "base32"; "base64"; "hex"; "any"; "octet";
              "ipsechost"; "amtrelayhost"].

Definition mem (s : string) (l : list string) : bool :=
  existsb (String.eqb s) l.

(** A tag of the size form, and its encoding recognised. *)
Definition sizeForm (tag : string) : bool := HasPrefix tag (dnsPrefix "size-").

Definition sizeRecognised (tag : string) : bool :=
  mem (structTag tag) ["hex"; "base32"; "base64"].

(** The basic kinds an empty tag resolves. *)
Definition basicCodec (k : BasicKind) : bool :=
  match k with
  | Uint8 | Uint16 | Uint32 | Uint64 | String_ => true
  | _ => false
  end.

(** A field the interpreter resolves: its tag is in the vocabulary of its
    shape, or has the size form with a recognised encoding, or is empty on
    one of the five basic kinds. *)
Definition resolvable (f : Field) : bool :=
  if isSlice (Type_ f) then mem (Tag f) sliceVocabulary
  else if sizeForm (Tag f) then sizeRecognised (Tag f)
  else if Tag f =? "" then
    match Type_ f with Basic k => basicCodec k | _ => false end
  else mem (Tag f) scalarVocabulary.

(** C1 as the spec states it: in the unpack method every field step
    except the last one is directly followed by the empty check. *)
Fixpoint checksInterleaved (b : list Emit) : bool :=
  match b with
  | [] => true
  | e :: rest =>
      (if isFieldStep e
       then match rest with
            | EmptyCheck :: _ => true
            | _ => negb (existsb isFieldStep rest)
            end
       else true)
      && checksInterleaved rest
  end.

(** What the unpack loop prints: an ignored field prints nothing, any
    other field prints one step, and the empty check follows the step
    exactly when [checked]. *)
Definition checked (n i : nat) (f : Field) : bool :=
  negb (sizeForm (Tag f)) && negb (isSlice (Type_ f)) && (i <? n - 1)%nat.

Inductive unpackBody (n : nat) : nat -> list Field -> list Emit -> Prop :=
| body_done : forall i, unpackBody n i [] []
| body_ignored : forall i f fs r,
    ignored f = true ->
    unpackBody n (S i) fs r ->
    unpackBody n i (f :: fs) r
| body_step : forall i f fs e r,
    ignored f = false ->
    isFieldStep e = true ->
    unpackBody n (S i) fs r ->
    unpackBody n i (f :: fs)
      (e :: (if checked n i f then [EmptyCheck] else []) ++ r)%list.

(** The extracted schema list: the collected names with their structs. *)
Fixpoint structsOf (scope : Scope) (names : list string)
  : outcome (list (string * StructT)) :=
  match names with
  | [] => Ret []
  | name :: rest =>
      st <- structOf scope name ;;
      l <- structsOf scope rest ;;
      Ret ((name, st) :: l)
  end.

Definition schemas (scope : Scope) : outcome (list (string * StructT)) :=
  namedTypes <- collect scope (Names scope) ;;
  structsOf scope namedTypes.

(** A type the collection loop keeps: exported, a record, and not the
    private container. *)
Definition discovered (scope : Scope) (o : Object) : Prop :=
  Exported o = true /\
  (exists st b, getTypeStruct (ObjType o) scope = Ret (Some st, b)) /\
  ObjName o <> "PrivateRR".

(** A kept type without its type-code constant, the exempt name apart. *)
Definition unregistered (scope : Scope) (o : Object) : Prop :=
  Lookup scope (ObjName o) = Some o /\
  discovered scope o /\
  Lookup scope ("Type" ++ ObjName o) = None /\
  ObjName o <> "RFC3597".

(* ------------------------------------------------------------------ *)
(** ** Running the emitted methods                                     *)
(* ------------------------------------------------------------------ *)

(** The emitted statements are read as Go reads them, over the codec
    library the text calls into, which is a parameter. *)
Module Runtime.

Inductive value : Type :=
| VString (s : string)
| VUint (n : Z)
| VData (d : list Z).

(** The receiver [rr]: its fields by name. *)
Definition record : Type := string -> value.

Definition assign (rr : record) (f : string) (v : value) : record :=
  fun g => if g =? f then v else rr g.

(** [rr.F != "-"] *)
Definition notDash (v : value) : bool :=
  match v with
  | VString s => negb (s =? "-")
  | _ => true
  end.

(** [int(rr.F)] *)
Definition toInt (v : value) : Z :=
  match v with VUint n => n | _ => 0%Z end.

Inductive error : Type :=
| errUnpackOverflow
| errTrailingRData
| errLib (msg : string).

(** A statement falls through to the next one or returns. *)
Inductive ctl (S R : Type) : Type :=
| Next (s : S)
| Return (r : R).
Arguments Next {S R} s.
Arguments Return {S R} r.

Fixpoint run {S R : Type} (step : Emit -> S -> ctl S R)
  (b : list Emit) (s : S) : ctl S R :=
  match b with
  | [] => Next s
  | e :: rest =>
      match step e s with
      | Next s' => run step rest s'
      | Return r => Return r
      end
  end.

(** What an unpack primitive is passed besides the cursor. *)
Inductive extra : Type :=
| NoExtra
| WithBuf (msgBuf : list Z)
| WithLen (n : Z).

Section Library.

(** What the pack primitives write to: [msg] and the compression map. *)
Variable heap : Type.

(** [off, err = <call>] for the call of a pack format on a field. *)
Variable packCall :
  string -> string -> record -> heap -> Z -> heap * Z * option error.

(** [v, err = unpacker(&s, ...)]: the value, the cursor left, the error. *)
Variable unpackCall :
  string -> extra -> list Z -> value * list Z * option error.

(** [s.Read<T>(&v)]: the value and the cursor left, or false. *)
Variable readInt : string -> list Z -> option (value * list Z).

(** [unpackIPSECGateway(&s, msgBuf, gatewayType)]. *)
Variable unpackIPSECGateway :
  list Z -> list Z -> value -> value * value * list Z * option error.

Definition packPrimitive (format field : string) (rr : record)
  (st : heap * Z) : ctl (heap * Z) (heap * Z * option error) :=
  match packCall format field rr (fst st) (snd st) with
  | (h, off, Some err) => Return (h, off, Some err)
  | (h, off, None) => Next (h, off)
  end.

(** One statement group of a pack method on the state [(msg, off)]. *)
Definition execPack (rr : record) (e : Emit) (st : heap * Z)
  : ctl (heap * Z) (heap * Z * option error) :=
  match e with
  | PackStep format field => packPrimitive format field rr st
  | PackSalt field =>
      if notDash (rr field)
      then packPrimitive ("off, err = packStringHex(rr.%s, msg, off)" ++ nl)
             field rr st
      else Next st
  | PackReturn => Return (fst st, snd st, None)
  | _ => Next st
  end.

Definition unpackPrimitive (field unpacker : string) (x : extra)
  (st : record * list Z)
  : ctl (record * list Z) (record * list Z * option error) :=
  match unpackCall unpacker x (snd st) with
  | (v, s, Some err) => Return (assign (fst st) field v, s, Some err)
  | (v, s, None) => Next (assign (fst st) field v, s)
  end.

(** One statement group of an unpack method on the state [(rr, s)]. *)
Definition execUnpack (data msgBuf : list Z) (e : Emit)
  (st : record * list Z)
  : ctl (record * list Z) (record * list Z * option error) :=
  let rr := fst st in
  let s := snd st in
  match e with
  | UnpackCursor => Next (rr, data)
  | UnpackField field unpacker => unpackPrimitive field unpacker NoExtra st
  | UnpackFieldBuf field unpacker =>
      unpackPrimitive field unpacker (WithBuf msgBuf) st
  | UnpackFieldRest field unpacker =>
      unpackPrimitive field unpacker (WithLen (Z.of_nat (List.length s))) st
  | UnpackFieldLength field unpacker len =>
      unpackPrimitive field unpacker (WithLen (toInt (rr len))) st
  | ReadInt type_ field =>
      match readInt type_ s with
      | Some (v, s') => Next (assign rr field v, s')
      | None => Return (rr, s, Some errUnpackOverflow)
      end
  | UnpackGateway =>
      match unpackIPSECGateway s msgBuf (rr "GatewayType") with
      | (addr, host, s', err) =>
          let rr' := assign (assign rr "GatewayAddr" addr) "GatewayHost" host in
          match err with
          | Some er => Return (rr', s', Some er)
          | None => Next (rr', s')
          end
      end
  | EmptyCheck =>
      match s with
      | [] => Return (rr, s, None)
      | _ => Next st
      end
  | TrailingCheck =>
      match s with
      | [] => Next st
      | _ => Return (rr, s, Some errTrailingRData)
      end
  | UnpackReturn => Return (rr, s, None)
  | _ => Next st
  end.

End Library.

Arguments packPrimitive {heap} packCall format field rr st.
Arguments execPack {heap} packCall rr e st.

End Runtime.

(* ------------------------------------------------------------------ *)
(** ** Sample schemas                                                  *)
(* ------------------------------------------------------------------ *)

Module Samples.

Definition RR_Header : GoType :=
  Named "RR_Header"
    (Struct [mkField "Name" false (Basic String_) (dnsTag "cdomain-name");
             mkField "Rrtype" false (Basic Uint16) "";
             mkField "Class" false (Basic Uint16) "";
             mkField "Ttl" false (Basic Uint32) "";
             mkField "Rdlength" false (Basic Uint16) (dnsTag "-")]).

(** The schema of the spec's scenario. *)
Definition Example : StructT :=
  [mkField "Hdr" false RR_Header "";
   mkField "A" false (Basic Uint16) "";
   mkField "B" false (Slice (Basic String_)) (dnsTag "txt");
   mkField "C" false (Basic String_) (dnsTag "hex")].

(** A type that embeds [Example]. *)
Definition Wrapped : StructT :=
  [mkField "Example" true (Named "Example" (Struct Example)) "";
   mkField "Extra" false (Basic Uint8) ""].

(** A salted record in the manner of NSEC3PARAM. *)
Definition Salted : StructT :=
  [mkField "Hdr" false RR_Header "";
   mkField "SaltLength" false (Basic Uint8) "";
   mkField "Salt" false (Basic String_) (dnsTag "size-hex:SaltLength")].

Definition Salt32 : Field :=
  mkField "Salt" false (Basic String_) (dnsTag "size-base32:SaltLength").

Definition Gateway : Field :=
  mkField "GatewayHost" false (Basic String_) (dnsTag "ipsechost").

Definition scope : Scope :=
  [mkObject "Example" true (Named "Example" (Struct Example));
   mkObject "RFC3597" true (Named "RFC3597" (Struct Salted));
   mkObject "RR_Header" true RR_Header;
   mkObject "TypeExample" true (Named "Type" (Basic Uint16));
   mkObject "Wrapped" true (Named "Wrapped" (Struct Wrapped));
   mkObject "TypeWrapped" true (Named "Type" (Basic Uint16))].

(** The same package with one more, unexported, declaration. *)
Definition scope' : Scope :=
  (scope ++ [mkObject "helper" false (Basic Int)])%list.

(** A package where [Salted] has no type code. *)
Definition unwired : Scope :=
  [mkObject "RR_Header" true RR_Header;
   mkObject "Salted" true (Named "Salted" (Struct Salted))].

(** A codec library for running the emitted methods: a pack primitive
    writes one byte, an unpack primitive and an integer read consume one
    byte. *)
Definition packCall (_ _ : string) (_ : Runtime.record) (h : list Z) (off : Z)
  : list Z * Z * option Runtime.error := ((h ++ [0%Z])%list, (off + 1)%Z, None).

Definition unpackCall (_ : string) (_ : Runtime.extra) (s : list Z)
  : Runtime.value * list Z * option Runtime.error :=
  match s with
  | [] => (Runtime.VData [], [], Some (Runtime.errLib "overflow"))
  | b :: s' => (Runtime.VData [b], s', None)
  end.

Definition readInt (_ : string) (s : list Z) : option (Runtime.value * list Z) :=
  match s with
  | [] => None
  | b :: s' => Some (Runtime.VUint b, s')
  end.

Definition gateway (s _ : list Z) (_ : Runtime.value)
  : Runtime.value * Runtime.value * list Z * option Runtime.error :=
  (Runtime.VData [], Runtime.VString ".", s, None).

Definition rr0 : Runtime.record := fun _ => Runtime.VString "-".

End Samples.

(** How deep the chain of first fields of a type goes: the measure of the
    recursion of [getTypeStruct]. *)
Fixpoint embedDepth (t : GoType) : nat :=
  match Underlying t with
  | Struct st =>
      match st with
      | [] => 0
      | f0 :: _ => S (embedDepth (Type_ f0))
      end
  | _ => 0
  end.

(** The message of line 86. *)
Definition noTypeCode (o : Object) : list string :=
  [Sprintf "Constant Type%s does not exist." [ObjName o]].

(** The buffer as a function of the extracted schema list alone: the
    methods of each schema in turn, first all pack methods, then all unpack
    methods. *)
Fixpoint emitSchemas (routine : string -> StructT -> outcome (list Emit))
  (l : list (string * StructT)) : outcome (list Emit) :=
  match l with
  | [] => Ret []
  | (name, st) :: rest =>
      e <- routine name st ;;
      r <- emitSchemas routine rest ;;
      Ret (e ++ r)%list
  end.

Definition emitAll (l : list (string * StructT)) : outcome (list Emit) :=
  packs <- emitSchemas packRoutine l ;;
  unpacks <- emitSchemas unpackRoutine l ;;
  Ret (Raw packageHdr
       :: Raw ("// pack*() functions" ++ nl ++ nl)
       :: (packs ++ Raw ("// unpack*() functions" ++ nl ++ nl) :: unpacks)%list).

(** The codecs of an untagged field by basic kind, in the spec's table:
    the pack step and the unpack step of the five kinds, none for the
    others. *)
Definition basicSteps (k : BasicKind) (field : string) : option (Emit * Emit) :=
  match k with
  | Uint8 => Some (PackStep ("off, err = packUint8(rr.%s, msg, off)" ++ nl) field,
                   ReadInt "Uint8" field)
  | Uint16 => Some (PackStep ("off, err = packUint16(rr.%s, msg, off)" ++ nl) field,
                    ReadInt "Uint16" field)
  | Uint32 => Some (PackStep ("off, err = packUint32(rr.%s, msg, off)" ++ nl) field,
                    ReadInt "Uint32" field)
  | Uint64 => Some (PackStep ("off, err = packUint64(rr.%s, msg, off)" ++ nl) field,
                    ReadInt "Uint64" field)
  | String_ => Some (PackStep ("off, err = packString(rr.%s, msg, off)" ++ nl) field,
                     UnpackField field "unpackString")
  | _ => None
  end.

(** The test of the collection loop on one name (lines 73-82): the
    object exists, is exported, its type resolves to a struct, and the name
    is not PrivateRR. *)
Definition kept (scope : Scope) (name : string) : bool :=
  match Lookup scope name with
  | None => false
  | Some o =>
      Exported o
      && match getTypeStruct (ObjType o) scope with
         | Ret (Some _, _) => true
         | _ => false
         end
      && negb (name =? "PrivateRR")
  end.

(** The receivers of the pack and of the unpack methods in a buffer, in
    the order they were printed. *)
Definition packFuncs (b : list Emit) : list string :=
  flat_map (fun e => match e with PackFunc n => [n] | _ => [] end) b.

Definition unpackFuncs (b : list Emit) : list string :=
  flat_map (fun e => match e with UnpackFunc n => [n] | _ => [] end) b.

(** The field a pack step packs (the [%s] of its format). *)
Definition packTarget (e : Emit) : option string :=
  match e with
  | PackStep _ field | PackSalt field => Some field
  | _ => None
  end.

(** The fields a step of the unpack method assigns. *)
Definition unpackTargets (e : Emit) : list string :=
  match e with
  | UnpackField field _ | UnpackFieldBuf field _ | UnpackFieldRest field _
  | UnpackFieldLength field _ _ | ReadInt _ field => [field]
  | UnpackGateway => ["GatewayAddr"; "GatewayHost"]
  | _ => []
  end.

(** The buffer of a run that kept no type: the header and the two
    comments. *)
Definition emptyArtifact : list Emit :=
  [Raw packageHdr;
   Raw ("// pack*() functions" ++ nl ++ nl);
   Raw ("// unpack*() functions" ++ nl ++ nl)].

(** A record of the shape of IPSECKEY: the address of the gateway is
    ignored, the host of the gateway carries the gateway tag. *)
Definition gatewayRecord : StructT :=
  [mkField "Hdr" false
     (Named "RR_Header"
        (Struct [mkField "Name" false (Basic String_) (dnsTag "cdomain-name")])) "";
   mkField "Precedence" false (Basic Uint8) "";
   mkField "GatewayType" false (Basic Uint8) "";
   mkField "Algorithm" false (Basic Uint8) "";
   mkField "GatewayAddr" false (Named "net.IP" (Slice (Basic Uint8))) (dnsTag "-");
   mkField "GatewayHost" false (Basic String_) (dnsTag "ipsechost");
   mkField "PublicKey" false (Basic String_) (dnsTag "base64")].

(** The blob encodings with their unpack primitive and pack format. *)
Definition blobCodecs : list (string * string * string) :=
  [("hex", "unpackStringHex", "off, err = packStringHex(rr.%s, msg, off)" ++ nl);
   ("base32", "unpackStringBase32", "off, err = packStringBase32(rr.%s, msg, off)" ++ nl);
   ("base64", "unpackStringBase64", "off, err = packStringBase64(rr.%s, msg, off)" ++ nl)].

(** The pack format of the gateway fields. *)
Definition gatewayFormat : string :=
  "off, err = packIPSECGateway(rr.GatewayAddr, rr.%s, msg, off, rr.GatewayType, compression, false)" ++ nl.

(* ================================================================== *)
(** * Properties                                                       *)
(* ================================================================== *)

(* ------------------------------------------------------------------ *)
(** ** Strings                                                         *)
(* ------------------------------------------------------------------ *)

Lemma string_length_app (a b : string) :
  String.length (a ++ b) = String.length a + String.length b.
Proof. induction a as [|c a IH]; simpl; [reflexivity | now rewrite IH]. Qed.

Lemma append_assoc (a b c : string) : (a ++ b) ++ c = a ++ b ++ c.
Proof. induction a as [|x a IH]; simpl; [reflexivity | now rewrite IH]. Qed.

Lemma drop_app (a b : string) : drop (String.length a) (a ++ b) = b.
Proof. induction a as [|c a IH]; simpl; [now destruct b | exact IH]. Qed.

Lemma take_app (a b : string) : take (String.length a) (a ++ b) = a.
Proof. induction a as [|c a IH]; simpl; [reflexivity | now rewrite IH]. Qed.

Lemma prefix_take (i : nat) (s : string) : String.prefix (take i s) s = true.
Proof.
  revert s; induction i as [|i IH]; intros [|c s]; simpl; try reflexivity.
  destruct (ascii_dec c c) as [_|ne]; [apply IH | now elim ne].
Qed.

Lemma prefix_refl (s : string) : String.prefix s s = true.
Proof.
  induction s as [|c s IH]; simpl; [reflexivity|].
  destruct (ascii_dec c c) as [_|ne]; [exact IH | now elim ne].
Qed.

Lemma prefix_split (p s : string) :
  String.prefix p s = true -> s = p ++ drop (String.length p) s.
Proof.
  revert s; induction p as [|c p IH]; intros [|d s] H; simpl in *;
    try reflexivity; try discriminate H.
  destruct (ascii_dec c d) as [->|]; [|discriminate H].
  f_equal. now apply IH.
Qed.

Lemma prefix_trans (a b c : string) :
  String.prefix a b = true -> String.prefix b c = true -> String.prefix a c = true.
Proof.
  revert b c; induction a as [|x a IH]; intros [|y b] [|z c] Hab Hbc;
    simpl in *; try reflexivity; try discriminate.
  destruct (ascii_dec x y) as [->|]; [|discriminate Hab].
  destruct (ascii_dec y z) as [->|]; [|discriminate Hbc].
  destruct (ascii_dec z z) as [_|ne]; [|now elim ne].
  now apply IH with b.
Qed.

Lemma prefix_app_l (p a b : string) :
  String.prefix (p ++ a) (p ++ b) = String.prefix a b.
Proof.
  induction p as [|c p IH]; simpl; [reflexivity|].
  destruct (ascii_dec c c) as [_|ne]; [exact IH | now elim ne].
Qed.

Lemma free_of_app (c : ascii) (a b : string) :
  free_of c (a ++ b) = free_of c a && free_of c b.
Proof.
  induction a as [|x a IH]; simpl; [reflexivity|].
  now rewrite IH, andb_assoc.
Qed.

Lemma prefix_nil (s : string) : String.prefix "" s = true.
Proof. now destruct s. Qed.

Lemma prefix_single (c d : ascii) (s : string) :
  String.prefix (String c "") (String d s) = Ascii.eqb c d.
Proof.
  change (String.prefix (String c "") (String d s))
    with (if ascii_dec c d then String.prefix "" s else false).
  destruct (ascii_dec c d) as [->|ne].
  - now rewrite prefix_nil, Ascii.eqb_refl.
  - symmetry. now apply Ascii.eqb_neq.
Qed.

Lemma LastIndex_from_cons (i : nat) (last : Z) (c : ascii) (s sep : string) :
  LastIndex_from i last (String c s) sep
  = LastIndex_from (S i)
      (if String.prefix sep (String c s) then Z.of_nat i else last) s sep.
Proof. reflexivity. Qed.

Lemma LastIndex_from_free (s : string) (i : nat) (last : Z) :
  free_of ":" s = true -> LastIndex_from i last s ":" = last.
Proof.
  revert i last; induction s as [|c s IH]; intros i last H.
  - reflexivity.
  - cbn [free_of] in H. apply andb_true_iff in H as [Hc Hs].
    rewrite LastIndex_from_cons, prefix_single, Ascii.eqb_sym.
    apply negb_true_iff in Hc. rewrite Hc. now apply IH.
Qed.

Lemma TrimSuffix_app_dq (s : string) : TrimSuffix (s ++ dq) dq = s.
Proof.
  unfold TrimSuffix, HasSuffix.
  rewrite string_length_app. change (String.length dq) with 1.
  replace (String.length s + 1 - 1) with (String.length s) by lia.
  rewrite drop_app, take_app, String.eqb_refl.
  replace (1 <=? String.length s + 1)%nat with true; [reflexivity|].
  symmetry. apply Nat.leb_le. lia.
Qed.

(** [structMember] gives back the referenced field of a size tag. *)
Lemma structMember_size (enc member : string) :
  In enc ["hex"; "base32"; "base64"] ->
  free_of ":" member = true ->
  structMember (dnsTag ("size-" ++ enc ++ ":" ++ member)) = member.
Proof.
  intros Henc Hfree.
  assert (Hq : free_of ":" (member ++ dq) = true)
    by (rewrite free_of_app, Hfree; reflexivity).
  unfold structMember, LastIndex.
  destruct Henc as [<-|[<-|[<-|[]]]]; cbn;
    rewrite (LastIndex_from_free _ _ _ Hq), prefix_nil; cbn;
    apply TrimSuffix_app_dq.
Qed.

Lemma structTag_size (enc member : string) :
  In enc ["hex"; "base32"; "base64"] ->
  structTag (dnsTag ("size-" ++ enc ++ ":" ++ member)) = enc.
Proof.
  intros [<-|[<-|[<-|[]]]]; unfold structTag, Cut, Index; cbn;
    rewrite prefix_nil; reflexivity.
Qed.

(* ------------------------------------------------------------------ *)
(** ** Size-parametrized blobs                                         *)
(* ------------------------------------------------------------------ *)

Import Runtime.

(** C3.  A field tagged size-hex, size-base32 or size-base64 with a
    member [m] is unpacked by the step that passes [int(rr.m)] as the
    length, whereas the field tagged hex, base32 or base64 is unpacked by
    the step that passes [len(s)], all that is left of the record data.
    On the pack side the size-tagged field, outside the SaltLength case,
    prints the very step of its unparametrized counterpart. *)
Theorem size_blob_steps :
  forall (name : string) (n i : nat) (fname : string) (anon : bool)
         (t : GoType) (enc unpacker format member : string),
    In (enc, unpacker, format) blobCodecs ->
    free_of ":" member = true ->
    let sized := mkField fname anon t (dnsTag ("size-" ++ enc ++ ":" ++ member)) in
    let plain := mkField fname anon t (dnsTag enc) in
    unpackFieldAt name n i sized = Ret [UnpackFieldLength fname unpacker member]
    /\ (isSlice t = false ->
        unpackFieldAt name n i plain
        = Ret (UnpackFieldRest fname unpacker
               :: (if (i <? n - 1)%nat then [EmptyCheck] else []))
        /\ packField name plain = Ret [PackStep format fname]
        /\ (HasPrefix (Tag sized) (dnsPrefix "size-hex:SaltLength") = false ->
            packField name sized = packField name plain))
    /\ (forall unpackCall readInt gateway data msgBuf rr s,
        execUnpack unpackCall readInt gateway data msgBuf
          (UnpackFieldLength fname unpacker member) (rr, s)
        = unpackPrimitive unpackCall fname unpacker (WithLen (toInt (rr member))) (rr, s)
        /\ execUnpack unpackCall readInt gateway data msgBuf
             (UnpackFieldRest fname unpacker) (rr, s)
           = unpackPrimitive unpackCall fname unpacker
               (WithLen (Z.of_nat (List.length s))) (rr, s)).
Proof.
  intros name n i fname anon t enc unpacker format member Hin Hfree sized plain.
  assert (Henc : In enc ["hex"; "base32"; "base64"]).
  { destruct Hin as [H|[H|[H|[]]]]; inversion H; simpl; auto. }
  split; [|split].
  - unfold unpackFieldAt, unpackSize, sized.
    cbn [Tag Name].
    rewrite (structMember_size _ _ Henc Hfree), (structTag_size _ member Henc).
    destruct Hin as [H|[H|[H|[]]]]; inversion H; subst; reflexivity.
  - intros Hscalar. unfold unpackFieldAt, packField, sized, plain.
    cbn [Tag Name Type_]. rewrite Hscalar.
    destruct Hin as [H|[H|[H|[]]]]; inversion H; subst;
      (split; [reflexivity | split; [reflexivity |]]).
    + cbn. intros Hsalt. unfold packScalar. cbn. rewrite Hsalt. reflexivity.
    + intros _. reflexivity.
    + intros _. reflexivity.
  - intros; split; reflexivity.
Qed.

Lemma size_blob_steps_witness :
  unpackFieldAt "HIP" 5 3
    (mkField "Hit" false (Basic String_) (dnsTag "size-hex:HitLength"))
  = Ret [UnpackFieldLength "Hit" "unpackStringHex" "HitLength"].
Proof.
  exact (proj1 (size_blob_steps "HIP" 5 3 "Hit" false (Basic String_)
                  "hex" "unpackStringHex"
                  ("off, err = packStringHex(rr.%s, msg, off)" ++ nl) "HitLength"
                  (or_introl eq_refl) eq_refl)).
Defined.

(* ------------------------------------------------------------------ *)
(** ** The salt sentinel                                               *)
(* ------------------------------------------------------------------ *)

Lemma packScalar_salt (name : string) (f : Field) :
  HasPrefix (Tag f) (dnsPrefix "size-hex:SaltLength") = true ->
  packScalar name f = Ret [PackSalt (Name f)].
Proof.
  intros H. unfold packScalar.
  rewrite H. apply prefix_split in H. rewrite H. reflexivity.
Qed.

Lemma unpackSize_salt (name : string) (f : Field) :
  HasPrefix (Tag f) (dnsPrefix "size-hex:SaltLength") = true ->
  HasPrefix (Tag f) (dnsPrefix "size-") = true /\
  unpackSize name f
  = Ret [UnpackFieldLength (Name f) "unpackStringHex" (structMember (Tag f))].
Proof.
  intros H. unfold unpackSize.
  assert (Htag : structTag (Tag f) = "hex").
  { apply prefix_split in H. rewrite H. reflexivity. }
  rewrite Htag. split; [|reflexivity].
  apply prefix_split in H. rewrite H. reflexivity.
Qed.

(** C2, as the code has it.  The sentinel is tied to the tags that begin
    with size-hex:SaltLength: the pack step of such a field is the
    conditional one, which leaves the buffer and the offset as they are
    when the field holds the dash and otherwise runs the packStringHex
    call; the unpack step of the field is the plain length-bound read,
    with no condition on the value. *)
Theorem salt_sentinel_size_hex :
  forall (name : string) (n i : nat) (f : Field),
    isSlice (Type_ f) = false ->
    HasPrefix (Tag f) (dnsPrefix "size-hex:SaltLength") = true ->
    packField name f = Ret [PackSalt (Name f)]
    /\ (forall (heap : Type) packCall (rr : record) (st : heap * Z),
          rr (Name f) = VString "-" ->
          execPack packCall rr (PackSalt (Name f)) st = Next st)
    /\ (forall (heap : Type) packCall (rr : record) (st : heap * Z),
          notDash (rr (Name f)) = true ->
          execPack packCall rr (PackSalt (Name f)) st
          = execPack packCall rr
              (PackStep ("off, err = packStringHex(rr.%s, msg, off)" ++ nl) (Name f)) st)
    /\ unpackFieldAt name n i f
       = Ret [UnpackFieldLength (Name f) "unpackStringHex" (structMember (Tag f))]
    /\ (forall unpackCall readInt gateway data msgBuf (st : record * list Z),
          execUnpack unpackCall readInt gateway data msgBuf
            (UnpackFieldLength (Name f) "unpackStringHex" (structMember (Tag f))) st
          = unpackPrimitive unpackCall (Name f) "unpackStringHex"
              (WithLen (toInt (fst st (structMember (Tag f))))) st).
Proof.
  intros name n i f Hscalar Hsalt.
  destruct (unpackSize_salt name f Hsalt) as [Hsize Hunpack].
  repeat split.
  - unfold packField. rewrite Hscalar. now apply packScalar_salt.
  - intros heap packCall rr st Hdash. cbn [execPack]. now rewrite Hdash.
  - intros heap packCall rr st Hval. cbn [execPack]. now rewrite Hval.
  - unfold unpackFieldAt. now rewrite Hsize.
Qed.

Lemma salt_sentinel_size_hex_witness :
  packField "NSEC3PARAM"
    (mkField "Salt" false (Basic String_) (dnsTag "size-hex:SaltLength"))
  = Ret [PackSalt "Salt"].
Proof.
  exact (proj1 (salt_sentinel_size_hex "NSEC3PARAM" 6 5
                  (mkField "Salt" false (Basic String_) (dnsTag "size-hex:SaltLength"))
                  eq_refl eq_refl)).
Defined.

(** C2 as stated fails for the other two encodings: a size-base32 field
    that refers to SaltLength is packed by the unconditional step, which
    writes also when the field holds the dash. *)
Lemma salt_sentinel_base32_counterexample :
  ~ (forall (name : string) (f : Field) (enc : string) (evs : list Emit)
            (packCall : string -> string -> record -> list Z -> Z
                        -> list Z * Z * option error)
            (rr : record) (st : list Z * Z),
        In enc ["hex"; "base32"; "base64"] ->
        isSlice (Type_ f) = false ->
        Tag f = dnsTag ("size-" ++ enc ++ ":SaltLength") ->
        packField name f = Ret evs ->
        rr (Name f) = VString "-" ->
        run (execPack packCall rr) evs st = Next st).
Proof.
  intros H.
  specialize (H "NSEC3" Samples.Salt32 "base32"
                [PackStep ("off, err = packStringBase32(rr.%s, msg, off)" ++ nl) "Salt"]
                Samples.packCall Samples.rr0 ([], 0%Z)
                (or_intror (or_introl eq_refl)) eq_refl eq_refl eq_refl eq_refl).
  discriminate H.
Qed.

(* ------------------------------------------------------------------ *)
(** ** The gateway fields                                              *)
(* ------------------------------------------------------------------ *)

(** C10.  For a field tagged ipsechost or amtrelayhost the pack step
    selects GatewayAddr and GatewayType next to the field itself, and the
    unpack step is one fixed text that assigns GatewayAddr and GatewayHost
    whatever the name of the field; both steps compile only against a
    struct that has the three Gateway fields. *)
Theorem gateway_steps :
  forall (name : string) (n i : nat) (f : Field),
    isSlice (Type_ f) = false ->
    Tag f = dnsTag "ipsechost" \/ Tag f = dnsTag "amtrelayhost" ->
    packField name f = Ret [PackStep gatewayFormat (Name f)]
    /\ render1 (PackStep gatewayFormat (Name f))
       = "off, err = packIPSECGateway(rr.GatewayAddr, rr." ++ Name f
         ++ ", msg, off, rr.GatewayType, compression, false)" ++ nl ++ packErrCheck
    /\ selects (PackStep gatewayFormat (Name f))
       = ["GatewayAddr"; Name f; "GatewayType"]
    /\ unpackFieldAt name n i f
       = Ret (UnpackGateway :: (if (i <? n - 1)%nat then [EmptyCheck] else []))
    /\ render1 UnpackGateway
       = "rr.GatewayAddr, rr.GatewayHost, err = unpackIPSECGateway(&s, msgBuf, rr.GatewayType)"
         ++ nl ++ errCheck
    /\ (forall unpackCall readInt gateway data msgBuf rr s,
          exists addr host s' err,
            gateway s msgBuf (rr "GatewayType") = (addr, host, s', err) /\
            fst (match execUnpack unpackCall readInt gateway data msgBuf
                         UnpackGateway (rr, s) with
                 | Next st => st
                 | Return (st, _) => st
                 end)
            = assign (assign rr "GatewayAddr" addr) "GatewayHost" host)
    /\ (forall fields : list string,
          wellFormed fields (PackStep gatewayFormat (Name f)) ->
          wellFormed fields UnpackGateway ->
          In "GatewayAddr" fields /\ In "GatewayHost" fields
          /\ In "GatewayType" fields /\ In (Name f) fields).
Proof.
  intros name n i f Hscalar Htag.
  assert (Hpack : packField name f = Ret [PackStep gatewayFormat (Name f)]).
  { unfold packField, packScalar. rewrite Hscalar.
    destruct Htag as [-> | ->]; reflexivity. }
  assert (Hunpack : unpackFieldAt name n i f
                    = Ret (UnpackGateway :: (if (i <? n - 1)%nat then [EmptyCheck] else []))).
  { unfold unpackFieldAt, unpackScalar. rewrite Hscalar.
    destruct Htag as [-> | ->]; reflexivity. }
  split; [exact Hpack|].
  split; [cbn; rewrite append_assoc; reflexivity|].
  split; [reflexivity|].
  split; [exact Hunpack|]. split; [reflexivity|]. split.
  - intros unpackCall readInt gateway data msgBuf rr s.
    cbn [execUnpack fst snd].
    destruct (gateway s msgBuf (rr "GatewayType")) as [[[addr host] s'] err].
    exists addr, host, s', err. split; [reflexivity|].
    destruct err; reflexivity.
  - intros fields Hp Hu. unfold wellFormed in Hp, Hu.
    repeat split;
      first [ apply Hu; simpl; tauto | apply Hp; cbn; tauto ].
Qed.

Lemma gateway_steps_witness :
  unpackFieldAt "IPSECKEY" 7 5 Samples.Gateway
  = Ret [UnpackGateway; EmptyCheck].
Proof.
  exact (proj1 (proj2 (proj2 (proj2
           (gateway_steps "IPSECKEY" 7 5 Samples.Gateway eq_refl (or_introl eq_refl)))))).
Defined.

(* ------------------------------------------------------------------ *)
(** ** The schema extractor                                            *)
(* ------------------------------------------------------------------ *)

Lemma getTypeStruct_unfold (t : GoType) (scope : Scope) :
  getTypeStruct t scope
  = match Underlying t with
    | Struct [] => Ret (None, false)
    | Struct (f0 :: rest) =>
        match Lookup scope "RR_Header" with
        | None => Panic
        | Some hdr =>
            if same_type (Type_ f0) (ObjType hdr) then Ret (Some (f0 :: rest), false)
            else if Anonymous f0 then
              r <- getTypeStruct (Type_ f0) scope ;; Ret (fst r, true)
            else Ret (None, false)
        end
    | _ => Ret (None, false)
    end.
Proof.
  destruct t as [k|e|e|[|f0 rest]|obj [k|e|e|[|f0 rest]|obj' u]]; reflexivity.
Qed.

(** A kept struct was found under a header that the scope declares. *)
Lemma getTypeStruct_header (t : GoType) (scope : Scope) (st : StructT) (b : bool) :
  getTypeStruct t scope = Ret (Some st, b) ->
  exists hdr, Lookup scope "RR_Header" = Some hdr.
Proof.
  rewrite getTypeStruct_unfold.
  destruct (Underlying t) as [ | | |[|f0 rest]| ]; try discriminate.
  destruct (Lookup scope "RR_Header") as [hdr|]; [eauto | discriminate].
Qed.

Lemma isRecord_getTypeStruct (scope : Scope) (t : GoType) :
  isRecord scope t -> exists st b, getTypeStruct t scope = Ret (Some st, b).
Proof.
  induction 1 as [t f0 rest hdr Hu Hl Hs | t f0 rest Hu Ha _ [st [b IH]]];
    rewrite getTypeStruct_unfold, Hu.
  - rewrite Hl, Hs. eauto.
  - destruct (getTypeStruct_header _ _ _ _ IH) as [hdr Hl]. rewrite Hl.
    destruct (same_type (Type_ f0) (ObjType hdr)); [eauto|].
    rewrite Ha, IH. simpl. eauto.
Qed.

Lemma embedDepth_unfold (t : GoType) :
  embedDepth t
  = match Underlying t with
    | Struct (f0 :: _) => S (embedDepth (Type_ f0))
    | _ => 0
    end.
Proof.
  destruct t as [k|e|e|[|f0 rest]|obj [k|e|e|[|f0 rest]|obj' u]]; reflexivity.
Qed.

(** Induction along the chain of first fields. *)
Lemma first_field_ind (P : GoType -> Prop) :
  (forall t, (forall f0 rest, Underlying t = Struct (f0 :: rest) -> P (Type_ f0)) -> P t) ->
  forall t, P t.
Proof.
  intros step t. remember (embedDepth t) as n eqn:Hn.
  revert t Hn. induction n as [|n IH]; intros t Hn; apply step;
    intros f0 rest Hu; rewrite embedDepth_unfold, Hu in Hn.
  - discriminate Hn.
  - injection Hn as Hn. now apply IH.
Qed.

Lemma getTypeStruct_isRecord (scope : Scope) :
  forall (t : GoType) (st : StructT) (b : bool),
    getTypeStruct t scope = Ret (Some st, b) -> isRecord scope t.
Proof.
  intros t. induction t as [t IH] using first_field_ind. intros st b H.
  rewrite getTypeStruct_unfold in H.
  destruct (Underlying t) as [ | | |[|f0 rest]| ] eqn:Hu; try discriminate H.
  destruct (Lookup scope "RR_Header") as [hdr|] eqn:Hl; [|discriminate H].
  destruct (same_type (Type_ f0) (ObjType hdr)) eqn:Hs.
  - eapply record_header; eauto.
  - destruct (Anonymous f0) eqn:Ha; [|discriminate H].
    destruct (getTypeStruct (Type_ f0) scope) as [[[st'|] b']| |] eqn:Hg;
      try discriminate H.
    eapply record_embedded; eauto.
Qed.

(** With the header declared, [getTypeStruct] always returns. *)
Lemma getTypeStruct_returns (scope : Scope) (hdr : Object) :
  Lookup scope "RR_Header" = Some hdr ->
  forall t, exists r, getTypeStruct t scope = Ret r.
Proof.
  intros Hl t. induction t as [t IH] using first_field_ind.
  rewrite getTypeStruct_unfold.
  destruct (Underlying t) as [ | | |[|f0 rest]| ] eqn:Hu; eauto.
  rewrite Hl.
  destruct (same_type (Type_ f0) (ObjType hdr)); [eauto|].
  destruct (Anonymous f0); [|eauto].
  destruct (IH f0 rest eq_refl) as [r ->]. simpl. eauto.
Qed.

(** C7.  [getTypeStruct] keeps a type exactly when the rule of the spec
    holds of it; a type whose underlying type is not a struct, a struct
    without fields, and a struct whose first field is neither of the
    header type nor embedded are not records. *)
Theorem getTypeStruct_classifies :
  forall (scope : Scope) (t : GoType),
    (isRecord scope t <-> exists st b, getTypeStruct t scope = Ret (Some st, b))
    /\ ((forall fields, Underlying t <> Struct fields) ->
        getTypeStruct t scope = Ret (None, false))
    /\ (Underlying t = Struct [] -> getTypeStruct t scope = Ret (None, false))
    /\ (forall f0 rest hdr,
          Underlying t = Struct (f0 :: rest) ->
          Lookup scope "RR_Header" = Some hdr ->
          same_type (Type_ f0) (ObjType hdr) = false ->
          Anonymous f0 = false ->
          getTypeStruct t scope = Ret (None, false)).
Proof.
  intros scope t. split; [split|].
  - apply isRecord_getTypeStruct.
  - intros [st [b H]]. exact (getTypeStruct_isRecord scope t st b H).
  - split; [|split].
    + intros Hns. rewrite getTypeStruct_unfold.
      destruct (Underlying t) as [ | | |fields| ]; try reflexivity.
      now elim (Hns fields).
    + intros Hu. now rewrite getTypeStruct_unfold, Hu.
    + intros f0 rest hdr Hu Hl Hs Ha.
      now rewrite getTypeStruct_unfold, Hu, Hl, Hs, Ha.
Qed.

Lemma getTypeStruct_classifies_witness :
  getTypeStruct (Named "Plain" (Struct [mkField "N" false (Basic Uint8) ""]))
    Samples.scope = Ret (None, false)
  /\ exists st b,
       getTypeStruct (Named "Wrapped" (Struct Samples.Wrapped)) Samples.scope
       = Ret (Some st, b).
Proof.
  split.
  - exact (proj2 (proj2 (proj2
             (getTypeStruct_classifies Samples.scope
                (Named "Plain" (Struct [mkField "N" false (Basic Uint8) ""])))))
             (mkField "N" false (Basic Uint8) "") [] 
             (mkObject "RR_Header" true Samples.RR_Header)
             eq_refl eq_refl eq_refl eq_refl).
  - apply (proj1 (proj1 (getTypeStruct_classifies Samples.scope
                           (Named "Wrapped" (Struct Samples.Wrapped))))).
    eapply record_embedded; [reflexivity | reflexivity |].
    eapply record_header; reflexivity.
Defined.

(* ------------------------------------------------------------------ *)
(** ** The collection loop and the type codes                          *)
(* ------------------------------------------------------------------ *)

Lemma Lookup_name (scope : Scope) (name : string) (o : Object) :
  Lookup scope name = Some o -> ObjName o = name.
Proof.
  induction scope as [|x scope IH]; simpl; [discriminate|].
  destruct (String.eqb_spec (ObjName x) name) as [E|_]; [|exact IH].
  intros H. injection H as <-. exact E.
Qed.

(** What one iteration of the collection loop does with a name. *)
Lemma collect_cons (scope : Scope) (hdr : Object) (name : string) (rest : list string) :
  Lookup scope "RR_Header" = Some hdr ->
  (collect scope (name :: rest) = collect scope rest
   /\ forall o, Lookup scope name = Some o -> ~ discovered scope o)
  \/ (exists o, Lookup scope name = Some o /\ unregistered scope o
                /\ collect scope (name :: rest) = Fatal (noTypeCode o))
  \/ (exists o, Lookup scope name = Some o /\ discovered scope o
                /\ ~ unregistered scope o
                /\ collect scope (name :: rest)
                   = (l <- collect scope rest ;; Ret (name :: l))).
Proof.
  intros Hl. cbn [collect].
  destruct (Lookup scope name) as [o|] eqn:Ho.
  2:{ left. split; [reflexivity | discriminate]. }
  pose proof (Lookup_name _ _ _ Ho) as Hname.
  destruct (Exported o) eqn:He; cbn [negb].
  2:{ left. split; [reflexivity|]. intros o' E [He' _]. congruence. }
  destruct (getTypeStruct_returns scope hdr Hl (ObjType o)) as [[st b] Hg].
  rewrite Hg. cbn [bind fst].
  destruct st as [st|].
  2:{ left. split; [reflexivity|].
      intros o' E [_ [[st' [b' Hg']] _]].
      injection E as <-. rewrite Hg in Hg'. discriminate Hg'. }
  destruct (String.eqb_spec name "PrivateRR") as [Hp|Hp].
  { left. split; [reflexivity|].
    intros o' E [_ [_ Hn]]. injection E as <-. congruence. }
  assert (Hd : discovered scope o).
  { split; [exact He|]. split; [eauto|]. congruence. }
  destruct (Lookup scope ("Type" ++ ObjName o)) as [c|] eqn:Hc; cbn [isNil andb].
  { right; right. exists o. rewrite Hname.
    split; [reflexivity|]. split; [exact Hd|]. split; [|reflexivity].
    intros [_ [_ [Hnone _]]]. congruence. }
  destruct (String.eqb_spec (ObjName o) "RFC3597") as [Hr|Hr]; cbn [negb].
  - right; right. exists o. rewrite Hname.
    split; [reflexivity|]. split; [exact Hd|]. split; [|reflexivity].
    intros [_ [_ [_ Hne]]]. elim Hne. congruence.
  - right; left. exists o.
    split; [reflexivity|]. split; [|reflexivity].
    split; [now rewrite Hname|]. split; [exact Hd|]. split; assumption.
Qed.

Lemma collect_spec (scope : Scope) (hdr : Object) :
  Lookup scope "RR_Header" = Some hdr ->
  forall names,
    ((exists o, In (ObjName o) names /\ unregistered scope o) ->
     exists o, unregistered scope o /\ collect scope names = Fatal (noTypeCode o))
    /\ ((forall o, In (ObjName o) names -> ~ unregistered scope o) ->
        exists l, collect scope names = Ret l
                  /\ forall name, In name l <->
                       In name names /\
                       exists o, Lookup scope name = Some o /\ discovered scope o).
Proof.
  intros Hl. induction names as [|name rest [IHf IHr]].
  - split.
    + intros [o [[] _]].
    + intros _. exists []. split; [reflexivity|]. simpl. tauto.
  - destruct (collect_cons scope hdr name rest Hl)
      as [[Hskip Hnd] | [[o [Ho [Hu Hfatal]]] | [o [Ho [Hd [Hnu Hkeep]]]]]].
    + split.
      * intros [o [[E|Hin] Hu]].
        -- subst name. destruct Hu as [Ho [Hd _]]. now elim (Hnd o Ho).
        -- rewrite Hskip. apply IHf. eauto.
      * intros Hnone. rewrite Hskip.
        destruct IHr as [l [Hc Hl']].
        { intros o Hin. apply Hnone. now right. }
        exists l. split; [exact Hc|].
        intros x. rewrite Hl'. simpl. split.
        -- intros [Hin Hx]. auto.
        -- intros [[E|Hin] [o [Ho Hd]]]; [|eauto].
           subst x. now elim (Hnd o Ho).
    + split.
      * intros _. eauto.
      * intros Hnone. elim (Hnone o); [|exact Hu].
        left. now apply Lookup_name in Ho.
    + split.
      * intros [o' [[E|Hin] Hu]].
        -- subst name. destruct Hu as [Ho' Hrest].
           rewrite Ho in Ho'. injection Ho' as <-.
           elim Hnu. split; [exact Ho | exact Hrest].
        -- destruct IHf as [o'' [Hu'' Hc]]; [eauto|].
           exists o''. split; [exact Hu''|]. now rewrite Hkeep, Hc.
      * intros Hnone.
        destruct IHr as [l [Hc Hl']].
        { intros o' Hin. apply Hnone. now right. }
        exists (name :: l). split; [now rewrite Hkeep, Hc|].
        intros x. simpl. rewrite Hl'. split.
        -- intros [E|[Hin Hx]]; [|auto]. subst x. split; [now left | eauto].
        -- intros [[E|Hin] Hx]; [now left | right; auto].
Qed.

Lemma unregistered_header (scope : Scope) (o : Object) :
  unregistered scope o -> exists hdr, Lookup scope "RR_Header" = Some hdr.
Proof.
  intros [_ [[_ [[st [b Hg]] _]] _]]. exact (getTypeStruct_header _ _ _ _ Hg).
Qed.

Lemma Lookup_In_Names (scope : Scope) (name : string) (o : Object) :
  Lookup scope name = Some o -> In name (Names scope).
Proof.
  induction scope as [|x scope IH]; simpl; [discriminate|].
  destruct (String.eqb_spec (ObjName x) name) as [E|_]; [now left | right; auto].
Qed.

(** C8.  When a kept type other than RFC3597 has no [Type<X>] object in
    the scope, the run ends in the fatal message of the first such type;
    when there is none (RFC3597 may lack its type code), the collection
    loop returns the kept names. *)
Theorem missing_type_code_is_fatal :
  forall scope : Scope,
    ((exists o, unregistered scope o) ->
     exists o, unregistered scope o
               /\ collect scope (Names scope) = Fatal (noTypeCode o)
               /\ generate scope = Fatal (noTypeCode o)
               /\ forall format_Source, main format_Source scope = Fatal (noTypeCode o))
    /\ (forall hdr, Lookup scope "RR_Header" = Some hdr ->
        (forall o, ~ unregistered scope o) ->
        exists l, collect scope (Names scope) = Ret l
                  /\ forall name, In name l <->
                       exists o, Lookup scope name = Some o /\ discovered scope o).
Proof.
  intros scope. split.
  - intros [o Hu].
    destruct (unregistered_header scope o Hu) as [hdr Hl].
    destruct (proj1 (collect_spec scope hdr Hl (Names scope))) as [o' [Hu' Hc]].
    { exists o. split; [|exact Hu].
      eapply Lookup_In_Names. exact (proj1 Hu). }
    exists o'. split; [exact Hu'|]. split; [exact Hc|].
    unfold main, generate. rewrite Hc. split; [reflexivity|]. intros; reflexivity.
  - intros hdr Hl Hnone.
    destruct (proj2 (collect_spec scope hdr Hl (Names scope))) as [l [Hc Hl']].
    { intros o _. apply Hnone. }
    exists l. split; [exact Hc|].
    intros name. rewrite Hl'. split.
    + intros [_ H]. exact H.
    + intros [o [Ho Hd]]. split; [|eauto]. eapply Lookup_In_Names; eauto.
Qed.

Lemma missing_type_code_is_fatal_witness :
  (exists o, unregistered Samples.unwired o
             /\ generate Samples.unwired = Fatal (noTypeCode o))
  /\ exists l, collect Samples.scope (Names Samples.scope) = Ret l
               /\ (In "RFC3597" l <->
                   exists o, Lookup Samples.scope "RFC3597" = Some o
                             /\ discovered Samples.scope o).
Proof.
  split.
  - destruct (proj1 (missing_type_code_is_fatal Samples.unwired)) as [o [Hu [_ [Hg _]]]].
    + exists (mkObject "Salted" true (Named "Salted" (Struct Samples.Salted))).
      split; [reflexivity|]. split; [|split; [reflexivity | discriminate]].
      split; [reflexivity|]. split; [|discriminate].
      eexists; eexists; reflexivity.
    + exists o. split; assumption.
  - destruct (proj2 (missing_type_code_is_fatal Samples.scope)
                (mkObject "RR_Header" true Samples.RR_Header) eq_refl)
      as [l [Hc Hl]].
    + intros o [Ho [[_ [[st [b Hg]] _]] [Hnone Hne]]].
      assert (Hin : In (ObjName o) (Names Samples.scope))
        by (eapply Lookup_In_Names; exact Ho).
      simpl in Hin.
      destruct Hin as [E'|[E'|[E'|[E'|[E'|[E'|[]]]]]]];
        rewrite <- E' in Ho; cbn in Ho; injection Ho as <-;
        first [ discriminate Hnone | discriminate Hg | now elim Hne ].
    + exists l. split; [exact Hc | apply Hl].
Defined.

(* ------------------------------------------------------------------ *)
(** ** One iteration of either loop                                    *)
(* ------------------------------------------------------------------ *)

(** Case analysis along a chain of [if]s and of matches on a basic kind,
    outermost test first. *)
Ltac walk H :=
  repeat match type of H with
    | (if ?b then _ else _) = _ => destruct b eqn:?
    | bind (if ?b then _ else _) _ = _ => destruct b eqn:?
    | Ret _ = Ret _ => injection H as H
    | Fatal _ = Ret _ => discriminate H
    | Panic = Ret _ => discriminate H
    end.

Lemma sizeForm_not_ignored (tag : string) :
  sizeForm tag = true -> (tag =? dnsTag "-") = false.
Proof.
  intros H. destruct (String.eqb_spec tag (dnsTag "-")) as [->|_];
    [discriminate H | reflexivity].
Qed.

(** An iteration of the pack loop that returns has printed nothing for an
    ignored field and exactly one pack step for any other. *)
Ltac shape_done evs :=
  subst evs; cbv iota;
  first [ reflexivity | eexists; split; [|reflexivity]; reflexivity ].

Lemma packField_shape (name : string) (f : Field) (evs : list Emit) :
  packField name f = Ret evs ->
  if ignored f then evs = [] else exists e, isPackStep e = true /\ evs = [e].
Proof.
  unfold packField, packSlice, packScalar, packBasic, ignored. intros H.
  destruct (isSlice (Type_ f)).
  - walk H; shape_done evs.
  - walk H; try (shape_done evs).
    destruct (Type_ f) as [[]| | | | ]; walk H; shape_done evs.
Qed.

(** An iteration of the unpack loop that returns has printed nothing for
    an ignored field, and for any other one field step, followed by the
    empty check exactly when the field is [checked]. *)
Lemma unpackFieldAt_shape (name : string) (n i : nat) (f : Field) (evs : list Emit) :
  unpackFieldAt name n i f = Ret evs ->
  if ignored f then evs = []
  else exists e, isFieldStep e = true
                 /\ evs = e :: (if checked n i f then [EmptyCheck] else []).
Proof.
  unfold unpackFieldAt, checked, sizeForm, ignored. intros H.
  destruct (HasPrefix (Tag f) (dnsPrefix "size-")) eqn:Hsize.
  - rewrite (sizeForm_not_ignored _ Hsize). cbn [negb andb].
    unfold unpackSize in H. walk H; shape_done evs.
  - cbn [negb andb]. destruct (isSlice (Type_ f)); cbn [negb andb].
    + unfold unpackSlice in H. walk H; shape_done evs.
    + unfold unpackScalar, unpackBasic in H.
      destruct (Tag f =? dnsTag "-"); [cbn [bind] in H; walk H; shape_done evs|].
      walk H; try (cbn [bind] in H; walk H; shape_done evs).
      destruct (Type_ f) as [[]| | | | ]; cbn [bind] in H; walk H;
        shape_done evs.
Qed.

Lemma count_app (p : Emit -> bool) (a b : list Emit) :
  count p (a ++ b)%list = count p a + count p b.
Proof. unfold count. now rewrite filter_app, length_app. Qed.

(** What a returning loop printed, iteration by iteration. *)
Lemma fieldLoop_count (body : nat -> Field -> outcome (list Emit))
  (p : Emit -> bool) (q : Field -> bool) :
  (forall i f e, body i f = Ret e -> count p e = if q f then 1 else 0) ->
  forall fs i r,
    fieldLoop body i fs = Ret r -> count p r = List.length (filter q fs).
Proof.
  intros Hbody. induction fs as [|f fs IH]; intros i r H; cbn [fieldLoop] in H.
  - injection H as <-. reflexivity.
  - destruct (body i f) as [e| |] eqn:He; try discriminate H.
    cbn [bind] in H.
    destruct (fieldLoop body (S i) fs) as [r'| |] eqn:Hr; try discriminate H.
    cbn [bind] in H. injection H as <-.
    rewrite count_app, (Hbody _ _ _ He), (IH _ _ Hr). cbn [filter].
    destruct (q f); reflexivity.
Qed.

(* ------------------------------------------------------------------ *)
(** ** Steps per field                                                 *)
(* ------------------------------------------------------------------ *)

Lemma packRoutine_inv (name : string) (st : StructT) (p : list Emit) :
  packRoutine name st = Ret p ->
  exists body, fieldLoop (fun _ f => packField name f) 1 (tl st) = Ret body
               /\ p = (PackFunc name :: body ++ [PackReturn])%list.
Proof.
  unfold packRoutine. intros H.
  destruct (fieldLoop _ 1 (tl st)) as [body| |]; try discriminate H.
  injection H as <-. eauto.
Qed.

Lemma unpackRoutine_inv (name : string) (st : StructT) (u : list Emit) :
  unpackRoutine name st = Ret u ->
  exists body, fieldLoop (unpackFieldAt name (NumFields st)) 1 (tl st) = Ret body
               /\ u = (UnpackFunc name :: UnpackCursor
                         :: body ++ [TrailingCheck; UnpackReturn])%list.
Proof.
  unfold unpackRoutine. intros H.
  destruct (fieldLoop _ 1 (tl st)) as [body| |]; try discriminate H.
  injection H as <-. eauto.
Qed.

(** C6.  For the struct that [getTypeStruct] resolves for a type, the
    pack method has one pack step, and the unpack method one field step,
    per field after the first whose tag is not the ignored marker.  The
    first field is passed over by its index alone: both methods are the
    same whatever stands at index 0. *)
Theorem steps_match_live_fields :
  forall (scope : Scope) (name : string) (st : StructT) (p u : list Emit),
    structOf scope name = Ret st ->
    packRoutine name st = Ret p ->
    unpackRoutine name st = Ret u ->
    count isPackStep p = List.length (liveFields st)
    /\ count isFieldStep u = List.length (liveFields st)
    /\ forall g0 : Field,
         packRoutine name (g0 :: tl st) = Ret p
         /\ unpackRoutine name (g0 :: tl st) = Ret u.
Proof.
  intros scope name st p u _ Hp Hu. split; [|split].
  - destruct (packRoutine_inv _ _ _ Hp) as [body [Hloop ->]].
    change (PackFunc name :: body ++ [PackReturn])%list
      with ([PackFunc name] ++ body ++ [PackReturn])%list.
    rewrite !count_app. cbn [count filter isPackStep List.length].
    rewrite Nat.add_0_r.
    refine (fieldLoop_count _ isPackStep (fun f => negb (ignored f)) _
              (tl st) 1 body Hloop).
    intros i f e He. apply packField_shape in He.
    destruct (ignored f); [now subst e|].
    destruct He as [x [Hx ->]]. unfold count. cbn [filter]. now rewrite Hx.
  - destruct (unpackRoutine_inv _ _ _ Hu) as [body [Hloop ->]].
    change (UnpackFunc name :: UnpackCursor :: body ++ [TrailingCheck; UnpackReturn])%list
      with ([UnpackFunc name; UnpackCursor] ++ body ++ [TrailingCheck; UnpackReturn])%list.
    rewrite !count_app. cbn [count filter isFieldStep List.length].
    rewrite Nat.add_0_r.
    refine (fieldLoop_count _ isFieldStep (fun f => negb (ignored f)) _
              (tl st) 1 body Hloop).
    intros i f e He. apply unpackFieldAt_shape in He.
    destruct (ignored f); [now subst e|].
    destruct He as [x [Hx ->]]. unfold count. cbn [filter]. rewrite Hx.
    destruct (checked (NumFields st) i f); reflexivity.
  - intros g0. destruct st as [|f0 fs]; [|split; assumption].
    split; [exact Hp | exact Hu].
Qed.

Lemma steps_match_live_fields_witness :
  exists p u,
    packRoutine "Wrapped" Samples.Example = Ret p
    /\ unpackRoutine "Wrapped" Samples.Example = Ret u
    /\ count isPackStep p = 3 /\ count isFieldStep u = 3.
Proof.
  eexists. eexists.
  split; [reflexivity|]. split; [reflexivity|].
  exact (conj
    (proj1 (steps_match_live_fields Samples.scope "Wrapped" Samples.Example _ _
              eq_refl eq_refl eq_refl))
    (proj1 (proj2 (steps_match_live_fields Samples.scope "Wrapped" Samples.Example _ _
              eq_refl eq_refl eq_refl)))).
Defined.

(* ------------------------------------------------------------------ *)
(** ** The empty checks of the unpack method                           *)
(* ------------------------------------------------------------------ *)

Lemma fieldLoop_unpackBody (name : string) (n : nat) :
  forall fs i r,
    fieldLoop (unpackFieldAt name n) i fs = Ret r -> unpackBody n i fs r.
Proof.
  induction fs as [|f fs IH]; intros i r H; cbn [fieldLoop] in H.
  - injection H as <-. constructor.
  - destruct (unpackFieldAt name n i f) as [e| |] eqn:He; try discriminate H.
    cbn [bind] in H.
    destruct (fieldLoop _ (S i) fs) as [r'| |] eqn:Hr; try discriminate H.
    cbn [bind] in H. injection H as <-.
    apply unpackFieldAt_shape in He. apply IH in Hr.
    destruct (ignored f) eqn:Hig.
    + subst e. now apply body_ignored.
    + destruct He as [x [Hx ->]].
      change ((x :: (if checked n i f then [EmptyCheck] else [])) ++ r')%list
        with (x :: (if checked n i f then [EmptyCheck] else []) ++ r')%list.
      now apply body_step.
Qed.

(** C1, as the code has it.  The unpack method is the cursor, the body
    and the trailing check, and in the body the empty check stands right
    after the step of a field exactly when the field is [checked]: not a
    slice, not size-tagged, and not at the last index of the struct.  For
    the Example schema this is three field steps and one empty check, the
    one after A. *)
Theorem empty_check_after_checked_steps :
  forall (name : string) (st : StructT) (evs : list Emit),
    unpackRoutine name st = Ret evs ->
    (exists body,
        evs = (UnpackFunc name :: UnpackCursor
                 :: body ++ [TrailingCheck; UnpackReturn])%list
        /\ unpackBody (NumFields st) 1 (tl st) body)
    /\ unpackRoutine "Example" Samples.Example
       = Ret [UnpackFunc "Example"; UnpackCursor;
              ReadInt "Uint16" "A"; EmptyCheck;
              UnpackField "B" "unpackStringTxt";
              UnpackFieldRest "C" "unpackStringHex";
              TrailingCheck; UnpackReturn].
Proof.
  intros name st evs H. split; [|reflexivity].
  destruct (unpackRoutine_inv _ _ _ H) as [body [Hloop ->]].
  exists body. split; [reflexivity|].
  exact (fieldLoop_unpackBody name _ _ _ _ Hloop).
Qed.

Lemma empty_check_after_checked_steps_witness :
  exists body,
    [UnpackFunc "Salted"; UnpackCursor; ReadInt "Uint8" "SaltLength"; EmptyCheck;
     UnpackFieldLength "Salt" "unpackStringHex" "SaltLength";
     TrailingCheck; UnpackReturn]
    = (UnpackFunc "Salted" :: UnpackCursor
         :: body ++ [TrailingCheck; UnpackReturn])%list
    /\ unpackBody 3 1 (tl Samples.Salted) body.
Proof.
  exact (proj1 (empty_check_after_checked_steps "Salted" Samples.Salted _ eq_refl)).
Defined.

(** C1 as stated fails on the schema of the spec itself: the step of the
    slice field B is followed by the step of C, and the method has one
    empty check, not two. *)
Lemma empty_check_counterexample :
  exists evs,
    unpackRoutine "Example" Samples.Example = Ret evs
    /\ count isFieldStep evs = 3
    /\ checksInterleaved evs = false
    /\ count isEmptyCheck evs = 1
    /\ count isEmptyCheck evs <> 2.
Proof.
  eexists. split; [reflexivity|].
  split; [reflexivity|]. split; [reflexivity|]. split; [reflexivity|].
  discriminate.
Qed.

(* ------------------------------------------------------------------ *)
(** ** The trailing-data check                                         *)
(* ------------------------------------------------------------------ *)

Lemma run_app {S R : Type} (step : Emit -> S -> ctl S R) (a b : list Emit) (s : S) :
  run step (a ++ b)%list s
  = match run step a s with
    | Next s' => run step b s'
    | Return r => Return r
    end.
Proof.
  revert s; induction a as [|e a IH]; intros s; cbn [run app]; [reflexivity|].
  destruct (step e s); [apply IH | reflexivity].
Qed.

Lemma unpackBody_events (n : nat) (i : nat) (fs : list Field) (r : list Emit) :
  unpackBody n i fs r ->
  Forall (fun e => isFieldStep e || isEmptyCheck e = true) r.
Proof.
  induction 1 as [i | i f fs r _ _ IH | i f fs e r _ He _ IH].
  - constructor.
  - exact IH.
  - constructor; [now rewrite He|].
    destruct (checked n i f); [constructor; [reflexivity|]|]; exact IH.
Qed.

Section UnpackRuns.

Variable unpackCall : string -> extra -> list Z -> value * list Z * option error.
Variable readInt : string -> list Z -> option (value * list Z).
Variable gateway : list Z -> list Z -> value -> value * value * list Z * option error.
Variables data msgBuf : list Z.

Let exec := execUnpack unpackCall readInt gateway data msgBuf.

(** A field step never returns success, and the empty check returns it
    on an empty cursor only. *)
Lemma step_success_empty (e : Emit) (st : record * list Z) (rr : record) (s : list Z) :
  isFieldStep e || isEmptyCheck e = true ->
  exec e st = Return (rr, s, None) -> s = [].
Proof.
  destruct st as [rr0 s0]. intros Hk H.
  destruct e; cbn [isFieldStep isEmptyCheck orb] in Hk; try discriminate Hk;
    unfold exec in H; cbn [execUnpack fst snd] in H;
    unfold unpackPrimitive in H; cbn [fst snd] in H.
  - destruct (unpackCall unpacker NoExtra s0) as [[v s'] [err|]];
      cbv iota in H; discriminate H.
  - destruct (unpackCall unpacker (WithBuf msgBuf) s0) as [[v s'] [err|]];
      cbv iota in H; discriminate H.
  - destruct (unpackCall unpacker _ s0) as [[v s'] [err|]];
      cbv iota in H; discriminate H.
  - destruct (unpackCall unpacker _ s0) as [[v s'] [err|]];
      cbv iota in H; discriminate H.
  - destruct (readInt type_ s0) as [[v s']|]; discriminate H.
  - destruct (gateway s0 msgBuf (rr0 "GatewayType")) as [[[a h] s'] [err|]];
      cbv iota in H; discriminate H.
  - destruct s0; [|discriminate H]. now injection H as _ <-.
Qed.

Lemma body_success_empty (b : list Emit) :
  Forall (fun e => isFieldStep e || isEmptyCheck e = true) b ->
  forall st rr s, run exec b st = Return (rr, s, None) -> s = [].
Proof.
  induction 1 as [|e b He _ IH]; intros st rr s H; cbn [run] in H.
  - discriminate H.
  - destruct (exec e st) as [st'|r] eqn:E.
    + exact (IH _ _ _ H).
    + injection H as ->. exact (step_success_empty _ _ _ _ He E).
Qed.

End UnpackRuns.

(** C4.  The unpack method ends with the trailing check and the final
    return, after the steps of all fields.  When the steps fall through
    with bytes left in the cursor the method returns [errTrailingRData];
    it never returns success with bytes left, and it always returns. *)
Theorem trailing_check_ends_unpack :
  forall (name : string) (st : StructT) (body : list Emit),
    fieldLoop (unpackFieldAt name (NumFields st)) 1 (tl st) = Ret body ->
    let evs := (UnpackFunc name :: UnpackCursor
                  :: body ++ [TrailingCheck; UnpackReturn])%list in
    unpackRoutine name st = Ret evs
    /\ forall unpackCall readInt gateway data msgBuf (rr0 : record) (s0 : list Z),
         let exec := execUnpack unpackCall readInt gateway data msgBuf in
         (forall rr b s,
             run exec body (rr0, data) = Next (rr, b :: s) ->
             run exec evs (rr0, s0) = Return (rr, b :: s, Some errTrailingRData))
         /\ (forall rr s,
                run exec evs (rr0, s0) = Return (rr, s, None) -> s = [])
         /\ exists r, run exec evs (rr0, s0) = Return r.
Proof.
  intros name st body Hloop evs. split.
  { unfold unpackRoutine. now rewrite Hloop. }
  intros unpackCall readInt gateway data msgBuf rr0 s0 exec.
  assert (Hrun : run exec evs (rr0, s0)
                 = match run exec body (rr0, data) with
                   | Next st' => run exec [TrailingCheck; UnpackReturn] st'
                   | Return r => Return r
                   end).
  { exact (run_app exec body [TrailingCheck; UnpackReturn] (rr0, data)). }
  pose proof (unpackBody_events _ _ _ _ (fieldLoop_unpackBody _ _ _ _ _ Hloop))
    as Hev.
  split; [|split].
  - intros rr b s Hbody. rewrite Hrun, Hbody. reflexivity.
  - intros rr s. rewrite Hrun.
    destruct (run exec body (rr0, data)) as [[rr1 s1]|r] eqn:Hbody.
    + destruct s1 as [|b s1]; cbn; intros H; [|discriminate H].
      now injection H as _ <-.
    + intros H. injection H as ->.
      exact (body_success_empty _ _ _ _ _ _ Hev _ _ _ Hbody).
  - rewrite Hrun.
    destruct (run exec body (rr0, data)) as [[rr1 s1]|r]; [|eauto].
    destruct s1 as [|b s1]; cbn; eauto.
Qed.

Lemma trailing_check_ends_unpack_witness :
  run (execUnpack Samples.unpackCall Samples.readInt Samples.gateway
         [1; 2; 3; 4]%Z [])
    [UnpackFunc "Example"; UnpackCursor;
     ReadInt "Uint16" "A"; EmptyCheck;
     UnpackField "B" "unpackStringTxt";
     UnpackFieldRest "C" "unpackStringHex";
     TrailingCheck; UnpackReturn]
    (Samples.rr0, [])
  = Return (assign (assign (assign Samples.rr0 "A" (VUint 1)) "B" (VData [2%Z]))
              "C" (VData [3%Z]),
            [4%Z], Some errTrailingRData).
Proof.
  exact (proj1 (proj2 (trailing_check_ends_unpack "Example" Samples.Example _ eq_refl)
                 Samples.unpackCall Samples.readInt Samples.gateway
                 [1; 2; 3; 4]%Z [] Samples.rr0 [])
           _ 4%Z [] eq_refl).
Defined.

(* ------------------------------------------------------------------ *)
(** ** The output as a function of the schema list                     *)
(* ------------------------------------------------------------------ *)

(** Every name the collection loop keeps resolves again to its struct. *)
Lemma collect_kept (scope : Scope) :
  forall names l,
    collect scope names = Ret l ->
    forall name, In name l -> exists st, structOf scope name = Ret st.
Proof.
  induction names as [|n names IH]; intros l H name Hin; cbn [collect] in H.
  - injection H as <-. destruct Hin.
  - destruct (Lookup scope n) as [o|] eqn:Ho; [|eauto].
    pose proof (Lookup_name _ _ _ Ho) as Hn.
    destruct (Exported o); cbn [negb] in H; [|eauto].
    destruct (getTypeStruct (ObjType o) scope) as [[[st|] b]| |] eqn:Hg;
      cbn [bind fst] in H; try discriminate H; [|eauto].
    destruct (n =? "PrivateRR"); [eauto|].
    assert (Hkeep : (l' <- collect scope names ;; Ret (ObjName o :: l')) = Ret l).
    { destruct (isNil (Lookup scope ("Type" ++ ObjName o))
                && negb (ObjName o =? "RFC3597")); [discriminate H | exact H]. }
    destruct (collect scope names) as [l'| |]; try discriminate Hkeep.
    cbn [bind] in Hkeep. injection Hkeep as <-.
    destruct Hin as [E|Hin]; [|eauto].
    subst name. exists st. unfold structOf. rewrite Hn, Ho, Hg. reflexivity.
Qed.

Lemma structsOf_returns (scope : Scope) :
  forall l,
    (forall name, In name l -> exists st, structOf scope name = Ret st) ->
    exists sl, structsOf scope l = Ret sl.
Proof.
  induction l as [|n l IH]; intros H; cbn [structsOf]; [eauto|].
  destruct (H n (or_introl eq_refl)) as [st ->].
  destruct IH as [sl ->]; [intros x Hx; apply H; now right|].
  cbn [bind]. eauto.
Qed.

Lemma emitLoop_structsOf (routine : string -> StructT -> outcome (list Emit))
  (scope : Scope) :
  forall names sl,
    structsOf scope names = Ret sl ->
    emitLoop routine scope names = emitSchemas routine sl.
Proof.
  induction names as [|n names IH]; intros sl H; cbn [structsOf] in H.
  - injection H as <-. reflexivity.
  - cbn [emitLoop].
    destruct (structOf scope n) as [st| |]; try discriminate H. cbn [bind] in *.
    destruct (structsOf scope names) as [sl'| |]; try discriminate H.
    cbn [bind] in H. injection H as <-. cbn [emitSchemas].
    now rewrite (IH sl' eq_refl).
Qed.

(** [generate] reads the scope only through the extracted schema list. *)
Lemma generate_factors (scope : Scope) :
  generate scope = (sl <- schemas scope ;; emitAll sl).
Proof.
  unfold generate, schemas.
  destruct (collect scope (Names scope)) as [l| |] eqn:Hc; cbn [bind];
    try reflexivity.
  destruct (structsOf_returns scope l (collect_kept scope _ _ Hc)) as [sl Hsl].
  rewrite Hsl. cbn [bind]. unfold emitAll.
  now rewrite !(emitLoop_structsOf _ scope l sl Hsl).
Qed.

(** C9.  Two runs on scopes with the same extracted schema list end the
    same way and, when they return, with the same buffer, the same text
    and the same bytes written: the output is the function [emitAll] of
    the schema list, then [render], then [format.Source]. *)
Theorem output_determined_by_schemas :
  forall scope1 scope2 : Scope,
    schemas scope1 = schemas scope2 ->
    generate scope1 = generate scope2
    /\ (forall format_Source,
          main format_Source scope1 = main format_Source scope2)
    /\ generate scope1 = (sl <- schemas scope1 ;; emitAll sl).
Proof.
  intros scope1 scope2 H.
  assert (Hg : generate scope1 = generate scope2)
    by (rewrite !generate_factors, H; reflexivity).
  split; [exact Hg|]. split; [|apply generate_factors].
  intros format_Source. unfold main. now rewrite Hg.
Qed.

Lemma output_determined_by_schemas_witness :
  schemas Samples.scope = schemas Samples.scope'
  /\ generate Samples.scope = generate Samples.scope'.
Proof.
  split; [reflexivity|].
  exact (proj1 (output_determined_by_schemas Samples.scope Samples.scope' eq_refl)).
Defined.

(* ------------------------------------------------------------------ *)
(** ** The annotation interpreter                                      *)
(* ------------------------------------------------------------------ *)

(** Membership in a vocabulary, test by test. *)
Ltac split_mem H :=
  unfold mem, sliceVocabulary, scalarVocabulary in H; cbn [existsb map] in H;
  repeat match type of H with
    | (_ || _) = true => apply orb_true_iff in H; destruct H as [H|H]
    | (_ || _) = false => apply orb_false_iff in H;
                          let H' := fresh "Hno" in destruct H as [H' H]
    end.

(** Walking a chain of tests towards an abnormal result. *)
Ltac walk_abort H :=
  repeat match type of H with
    | (if ?b then _ else _) = _ => destruct b eqn:?
    | Ret _ = Fatal _ => discriminate H
    | Ret _ = Panic => discriminate H
    end.

(** The encoding of a size tag starts what follows the size prefix. *)
Lemma structTag_prefix (tag : string) :
  sizeForm tag = true ->
  exists rest, tag = dnsPrefix "size-" ++ rest
               /\ String.prefix (structTag tag) rest = true.
Proof.
  intros H. exists (drop (String.length (dnsPrefix "size-")) tag).
  split; [now apply prefix_split|].
  unfold structTag, TrimPrefix. unfold sizeForm in H. rewrite H.
  unfold Cut. destruct (Index _ ":") as [i|]; cbn [fst].
  - apply prefix_take.
  - apply prefix_refl.
Qed.

Lemma packScalar_size (name : string) (f : Field) :
  sizeForm (Tag f) = true -> sizeRecognised (Tag f) = true ->
  exists p, packScalar name f = Ret p.
Proof.
  intros Hsize Hrec.
  destruct (structTag_prefix _ Hsize) as [rest [Htag Hpre]].
  destruct (packScalar name f) as [p|msg|] eqn:H; [eauto| |];
    exfalso; unfold packScalar in H; rewrite Htag in H; cbn in H;
    unfold sizeRecognised in Hrec; split_mem Hrec;
    try discriminate Hrec; apply String.eqb_eq in Hrec; rewrite Hrec in Hpre;
    walk_abort H; congruence.
Qed.

Lemma unpackSize_recognised (name : string) (f : Field) :
  sizeRecognised (Tag f) = true -> exists u, unpackSize name f = Ret u.
Proof.
  intros Hrec. unfold unpackSize.
  unfold sizeRecognised in Hrec. split_mem Hrec; try discriminate Hrec;
    apply String.eqb_eq in Hrec; rewrite Hrec; cbn; eauto.
Qed.

(** A resolvable field goes through both loops. *)
Lemma resolvable_returns (name : string) (n i : nat) (f : Field) :
  resolvable f = true ->
  exists p u, packField name f = Ret p /\ unpackFieldAt name n i f = Ret u.
Proof.
  unfold resolvable, packField, unpackFieldAt. intros H.
  destruct (isSlice (Type_ f)) eqn:Hslice.
  - split_mem H; try discriminate H; apply String.eqb_eq in H;
      unfold packSlice, unpackSlice; rewrite H; cbn; eauto.
  - fold (sizeForm (Tag f)). destruct (sizeForm (Tag f)) eqn:Hsize.
    + destruct (packScalar_size name f Hsize H) as [p ->].
      destruct (unpackSize_recognised name f H) as [u ->]. eauto.
    + destruct (String.eqb_spec (Tag f) "") as [Hempty|Hne].
      * unfold packScalar, unpackScalar, packBasic, unpackBasic. rewrite Hempty.
        destruct (Type_ f) as [k| | | | ]; try discriminate H.
        destruct k; try discriminate H; cbn; eauto.
      * split_mem H; try discriminate H; apply String.eqb_eq in H;
          unfold packScalar, unpackScalar; rewrite H; cbn; eauto.
Qed.

(** A field that is not resolvable stops one of the two loops. *)
Lemma unresolvable_aborts (name : string) (n i : nat) (f : Field) :
  resolvable f = false ->
  aborts (packField name f) \/ aborts (unpackFieldAt name n i f).
Proof.
  unfold resolvable, packField, unpackFieldAt. intros H.
  destruct (isSlice (Type_ f)) eqn:Hslice.
  - left. unfold packSlice. split_mem H.
    rewrite Hno, Hno0, Hno1, Hno2, Hno3, Hno4, Hno5. exact I.
  - right. fold (sizeForm (Tag f)). destruct (sizeForm (Tag f)) eqn:Hsize.
    + unfold unpackSize. unfold sizeRecognised in H. split_mem H.
      rewrite Hno, Hno0, Hno1. exact I.
    + destruct (String.eqb_spec (Tag f) "") as [Hempty|Hne].
      * unfold unpackScalar, unpackBasic. rewrite Hempty. cbn.
        destruct (Type_ f) as [k| | | | ]; try exact I.
        destruct k; try discriminate H; exact I.
      * apply String.eqb_neq in Hne. unfold unpackScalar. split_mem H.
        rewrite Hno, Hno0, Hno1, Hno2, Hno3, Hno4, Hno5, Hno6, Hno7, Hno8,
          Hno9, Hno10, Hno11, Hno12, Hne. exact I.
Qed.

Lemma prefix_app_r (p x : string) : String.prefix p (p ++ x) = true.
Proof.
  induction p as [|c p IH]; cbn [append]; [apply prefix_nil|].
  change (String.prefix (String c p) (String c (p ++ x)))
    with (if ascii_dec c c then String.prefix p (p ++ x) else false).
  destruct (ascii_dec c c) as [_|ne]; [exact IH | now elim ne].
Qed.

Lemma not_sizeForm_prefix (tag x : string) :
  sizeForm tag = false -> HasPrefix tag (dnsPrefix "size-" ++ x) = false.
Proof.
  intros H. destruct (HasPrefix tag (dnsPrefix "size-" ++ x)) eqn:E; [|reflexivity].
  rewrite <- H. symmetry. unfold sizeForm, HasPrefix in *.
  exact (prefix_trans _ _ _ (prefix_app_r _ x) E).
Qed.

Lemma fieldLoop_In (body : nat -> Field -> outcome (list Emit)) :
  forall fs i r f,
    fieldLoop body i fs = Ret r -> In f fs -> exists j e, body j f = Ret e.
Proof.
  induction fs as [|g fs IH]; intros i r f H Hin; [destruct Hin|].
  cbn [fieldLoop] in H.
  destruct (body i g) as [e| |] eqn:He; try discriminate H. cbn [bind] in H.
  destruct (fieldLoop body (S i) fs) as [r'| |] eqn:Hr; try discriminate H.
  destruct Hin as [<-|Hin]; [eauto | exact (IH _ _ _ Hr Hin)].
Qed.

Lemma emitSchemas_In (routine : string -> StructT -> outcome (list Emit)) :
  forall l r name st,
    emitSchemas routine l = Ret r -> In (name, st) l ->
    exists e, routine name st = Ret e.
Proof.
  induction l as [|[n s] l IH]; intros r name st H Hin; [destruct Hin|].
  cbn [emitSchemas] in H.
  destruct (routine n s) as [e| |] eqn:He; try discriminate H. cbn [bind] in H.
  destruct (emitSchemas routine l) as [r'| |] eqn:Hr; try discriminate H.
  destruct Hin as [E|Hin]; [|exact (IH _ _ _ eq_refl Hin)].
  injection E as <- <-. eauto.
Qed.

(** A run that returns has met resolvable fields only. *)
Lemma generate_resolvable (scope : Scope) (b : list Emit) :
  generate scope = Ret b ->
  exists sl, schemas scope = Ret sl
             /\ forall name st f, In (name, st) sl -> In f (tl st) ->
                                  resolvable f = true.
Proof.
  rewrite generate_factors.
  destruct (schemas scope) as [sl| |]; try discriminate. cbn [bind].
  intros H. exists sl. split; [reflexivity|]. intros name st f Hin Hf.
  unfold emitAll in H.
  destruct (emitSchemas packRoutine sl) as [packs| |] eqn:Hp; try discriminate H.
  cbn [bind] in H.
  destruct (emitSchemas unpackRoutine sl) as [unpacks| |] eqn:Hu; try discriminate H.
  destruct (emitSchemas_In _ _ _ _ _ Hp Hin) as [p Hpr].
  destruct (emitSchemas_In _ _ _ _ _ Hu Hin) as [u Hur].
  destruct (packRoutine_inv _ _ _ Hpr) as [pb [Hpl _]].
  destruct (unpackRoutine_inv _ _ _ Hur) as [ub [Hul _]].
  destruct (fieldLoop_In _ _ _ _ _ Hpl Hf) as [j [e He]].
  destruct (fieldLoop_In _ _ _ _ _ Hul Hf) as [j' [e' He']].
  destruct (resolvable f) eqn:Hres; [reflexivity|].
  destruct (unresolvable_aborts name (NumFields st) j' f Hres) as [Ha|Ha];
    [rewrite He in Ha | rewrite He' in Ha]; destruct Ha.
Qed.

(** C5, as the code has it.  A field whose tag is in the vocabulary of
    its shape, or of the size form with a recognised encoding, or empty on
    one of the five basic kinds, goes through both loops; any other field
    stops the run: a slice field in the pack loop, a size tag with an
    unrecognised encoding in the unpack loop, any other scalar field in
    both, each with the fatal message naming the type, the field and the
    tag.  An untagged field is resolved by its own type, not by the
    underlying one: when that type is a basic kind it prints the codec of
    the kind, or is fatal for a kind without one; when it is any other
    type that is not a slice, a defined type over a basic kind included,
    both loops panic in the type assertion.  A run that returns has met no
    other field. *)
Theorem annotation_interpreter_total_or_fatal :
  forall (name : string) (n i : nat) (f : Field),
    (resolvable f = true ->
     exists p u, packField name f = Ret p /\ unpackFieldAt name n i f = Ret u)
    /\ (resolvable f = false ->
        aborts (packField name f) \/ aborts (unpackFieldAt name n i f))
    /\ (isSlice (Type_ f) = true -> mem (Tag f) sliceVocabulary = false ->
        packField name f = Fatal [name; Name f; Tag f])
    /\ (isSlice (Type_ f) = false -> sizeForm (Tag f) = false ->
        Tag f <> "" -> mem (Tag f) scalarVocabulary = false ->
        packField name f = Fatal [name; Name f; Tag f]
        /\ unpackFieldAt name n i f = Fatal [name; Name f; Tag f])
    /\ (sizeForm (Tag f) = true -> sizeRecognised (Tag f) = false ->
        unpackFieldAt name n i f = Fatal [name; Name f; Tag f])
    /\ (forall k, Tag f = "" -> Type_ f = Basic k ->
        match basicSteps k (Name f) with
        | Some (p, u) =>
            packField name f = Ret [p]
            /\ unpackFieldAt name n i f
               = Ret (u :: (if (i <? n - 1)%nat then [EmptyCheck] else []))
        | None =>
            packField name f = Fatal [name; Name f]
            /\ unpackFieldAt name n i f = Fatal [name; Name f]
        end)
    /\ (Tag f = "" -> isSlice (Type_ f) = false ->
        (forall k, Type_ f <> Basic k) ->
        packField name f = Panic /\ unpackFieldAt name n i f = Panic)
    /\ (forall scope b, generate scope = Ret b ->
        exists sl, schemas scope = Ret sl
                   /\ forall nm st g, In (nm, st) sl -> In g (tl st) ->
                                      resolvable g = true).
Proof.
  intros name n i f.
  split; [apply resolvable_returns|].
  split; [apply unresolvable_aborts|].
  split; [|split; [|split; [|split; [|split]]]].
  - intros Hslice H. unfold packField, packSlice. rewrite Hslice.
    split_mem H. now rewrite Hno, Hno0, Hno1, Hno2, Hno3, Hno4, Hno5.
  - intros Hslice Hsize Hne H. apply String.eqb_neq in Hne.
    unfold packField, unpackFieldAt. fold (sizeForm (Tag f)).
    rewrite Hslice, Hsize. unfold packScalar, unpackScalar.
    pose proof (not_sizeForm_prefix (Tag f) "base32" Hsize) as P1.
    pose proof (not_sizeForm_prefix (Tag f) "base64" Hsize) as P2.
    pose proof (not_sizeForm_prefix (Tag f) "hex:SaltLength" Hsize) as P3.
    pose proof (not_sizeForm_prefix (Tag f) "hex" Hsize) as P4.
    change (dnsPrefix "size-" ++ "base32") with (dnsPrefix "size-base32") in P1.
    change (dnsPrefix "size-" ++ "base64") with (dnsPrefix "size-base64") in P2.
    change (dnsPrefix "size-" ++ "hex:SaltLength")
      with (dnsPrefix "size-hex:SaltLength") in P3.
    change (dnsPrefix "size-" ++ "hex") with (dnsPrefix "size-hex") in P4.
    split_mem H.
    rewrite P1, P2, P3, P4, Hno, Hno0, Hno1, Hno2, Hno3, Hno4, Hno5, Hno6, Hno7,
      Hno8, Hno9, Hno10, Hno11, Hno12, Hne.
    split; reflexivity.
  - intros Hsize H. unfold unpackFieldAt. fold (sizeForm (Tag f)). rewrite Hsize.
    unfold unpackSize. unfold sizeRecognised in H. split_mem H.
    now rewrite Hno, Hno0, Hno1.
  - intros k Hempty Hk.
    unfold packField, unpackFieldAt, packScalar, unpackScalar, packBasic, unpackBasic.
    rewrite Hempty, Hk. destruct k; cbn; split; reflexivity.
  - intros Hempty Hslice Hnb.
    unfold packField, unpackFieldAt, packScalar, unpackScalar, packBasic, unpackBasic.
    rewrite Hempty.
    destruct (Type_ f) as [k|e|e|fs|obj u];
      [now elim (Hnb k) | discriminate Hslice | | | ]; cbn; split; reflexivity.
  - apply generate_resolvable.
Qed.

Lemma annotation_interpreter_total_or_fatal_witness :
  packField "X" (mkField "F" false (Basic String_) (dnsTag "bogus"))
  = Fatal ["X"; "F"; dnsTag "bogus"]
  /\ unpackFieldAt "X" 3 1 (mkField "F" false (Basic String_) (dnsTag "size-rot13:N"))
     = Fatal ["X"; "F"; dnsTag "size-rot13:N"]
  /\ packField "X" (mkField "F" false (Basic Float64) "") = Fatal ["X"; "F"]
  /\ unpackFieldAt "X" 3 1 (mkField "Ttl" false (Named "TTL" (Basic Uint32)) "")
     = Panic
  /\ exists p u,
       packField "X" (mkField "F" false (Basic String_) (dnsTag "octet")) = Ret p
       /\ unpackFieldAt "X" 3 1 (mkField "F" false (Basic String_) (dnsTag "octet"))
          = Ret u.
Proof.
  split; [|split; [|split; [|split]]].
  - destruct (annotation_interpreter_total_or_fatal "X" 3 1
                (mkField "F" false (Basic String_) (dnsTag "bogus")))
      as (_ & _ & _ & H & _).
    apply H; [reflexivity | reflexivity | discriminate | reflexivity].
  - destruct (annotation_interpreter_total_or_fatal "X" 3 1
                (mkField "F" false (Basic String_) (dnsTag "size-rot13:N")))
      as (_ & _ & _ & _ & H & _).
    apply H; reflexivity.
  - destruct (annotation_interpreter_total_or_fatal "X" 3 1
                (mkField "F" false (Basic Float64) ""))
      as (_ & _ & _ & _ & _ & H & _).
    exact (proj1 (H Float64 eq_refl eq_refl)).
  - destruct (annotation_interpreter_total_or_fatal "X" 3 1
                (mkField "Ttl" false (Named "TTL" (Basic Uint32)) ""))
      as (_ & _ & _ & _ & _ & _ & H & _).
    apply H; [reflexivity | reflexivity | discriminate].
  - destruct (annotation_interpreter_total_or_fatal "X" 3 1
                (mkField "F" false (Basic String_) (dnsTag "octet")))
      as (H & _).
    apply H. reflexivity.
Defined.

(** C5 as stated fails on the resolution by the underlying type: an
    untagged field of a defined type over uint32 has the underlying basic
    kind uint32, yet neither loop prints the uint32 codec for it; both
    panic, and so does the run on a package that has such a record. *)
Lemma untagged_defined_type_counterexample :
  ~ (forall (name : string) (n i : nat) (f : Field) (k : BasicKind),
        Tag f = "" ->
        Underlying (Type_ f) = Basic k ->
        basicCodec k = true ->
        exists p u,
          packField name f = Ret p /\ unpackFieldAt name n i f = Ret u)
  /\ generate
       [mkObject "RR_Header" true Samples.RR_Header;
        mkObject "TypeX" true (Named "Type" (Basic Uint16));
        mkObject "X" true
          (Named "X"
             (Struct [mkField "Hdr" false Samples.RR_Header "";
                      mkField "Ttl" false (Named "TTL" (Basic Uint32)) ""]))]
     = Panic.
Proof.
  split; [|reflexivity].
  intros H.
  destruct (H "X" 2 1 (mkField "Ttl" false (Named "TTL" (Basic Uint32)) "")
              Uint32 eq_refl eq_refl eq_refl) as [p [u [Hp _]]].
  discriminate Hp.
Qed.

(* ================================================================== *)
(** * Further properties of the generator                              *)
(* ================================================================== *)

(* ------------------------------------------------------------------ *)
(** ** structMember and structTag on any tag                           *)
(* ------------------------------------------------------------------ *)

Lemma free_of_take (c : ascii) (n : nat) (s : string) :
  free_of c s = true -> free_of c (take n s) = true.
Proof.
  revert s; induction n as [|n IH]; intros [|a s] H; cbn [take free_of] in *;
    try reflexivity.
  apply andb_true_iff in H as [Ha Hs]. now rewrite Ha, IH.
Qed.

Lemma free_of_TrimSuffix (c : ascii) (s suf : string) :
  free_of c s = true -> free_of c (TrimSuffix s suf) = true.
Proof.
  intros H. unfold TrimSuffix. destruct (HasSuffix s suf); [|exact H].
  now apply free_of_take.
Qed.

(** Where [LastIndex] stops: nowhere, on a string without a colon, or on
    a colon with none after it. *)
Lemma LastIndex_from_spec (s : string) :
  forall (i : nat) (last : Z),
    (LastIndex_from i last s ":" = last /\ free_of ":" s = true)
    \/ exists k, LastIndex_from i last s ":" = Z.of_nat (i + k)
                 /\ free_of ":" (drop (S k) s) = true.
Proof.
  induction s as [|c s IH]; intros i last.
  - left. split; reflexivity.
  - rewrite LastIndex_from_cons, prefix_single, Ascii.eqb_sym. cbn [free_of].
    destruct (IH (S i) (if (c =? ":")%char then Z.of_nat i else last))
      as [[Hr Hf] | [k [Hr Hf]]].
    + destruct (c =? ":")%char.
      * right. exists 0. rewrite Hr, Nat.add_0_r. split; [reflexivity | exact Hf].
      * left. rewrite Hr. split; [reflexivity | exact Hf].
    + right. exists (S k). rewrite Hr. split; [f_equal; lia | exact Hf].
Qed.

(** X1.  Whatever the tag, [structMember] returns a string without a
    colon: it never hands the unpack loop a member that spans a further
    key of the tag. *)
Theorem structMember_colon_free :
  forall s : string, free_of ":" (structMember s) = true.
Proof.
  intros s. unfold structMember, LastIndex. apply free_of_TrimSuffix.
  destruct (LastIndex_from_spec s 0 (-1)) as [[-> Hf] | [k [-> Hf]]].
  - exact Hf.
  - replace (Z.to_nat (Z.of_nat (0 + k) + 1)) with (S k) by lia. exact Hf.
Qed.

Lemma Index_from_spec (s : string) :
  forall i : nat,
    match Index_from i s ":" with
    | Some j => exists k, j = i + k /\ free_of ":" (take k s) = true
    | None => free_of ":" s = true
    end.
Proof.
  induction s as [|c s IH]; intros i.
  - reflexivity.
  - cbn [Index_from]. rewrite prefix_single.
    destruct (Ascii.eqb_spec ":" c) as [E|ne].
    + exists 0. split; [lia | reflexivity].
    + specialize (IH (S i)).
      assert (Hc : negb (c =? ":")%char = true).
      { apply negb_true_iff, Ascii.eqb_neq. congruence. }
      destruct (Index_from (S i) s ":") as [j|].
      * destruct IH as [k [-> Hf]]. exists (S k).
        split; [lia|]. cbn [take free_of]. now rewrite Hc, Hf.
      * cbn [free_of]. now rewrite Hc, IH.
Qed.

(** X2.  Whatever the tag, [structTag] returns a string without a colon:
    the part before the first colon that follows the size prefix. *)
Theorem structTag_colon_free :
  forall s : string, free_of ":" (structTag s) = true.
Proof.
  intros s. unfold structTag, Cut, Index.
  pose proof (Index_from_spec (TrimPrefix s (dnsPrefix "size-")) 0) as H.
  destruct (Index_from 0 (TrimPrefix s (dnsPrefix "size-")) ":") as [j|];
    cbn [fst].
  - destruct H as [k [-> Hf]]. exact Hf.
  - exact H.
Qed.

Lemma LastIndex_from_app (a b : string) :
  free_of ":" b = true ->
  forall (i : nat) (last : Z),
    LastIndex_from i last (a ++ String ":" b) ":"
    = Z.of_nat (i + String.length a).
Proof.
  intros Hb. induction a as [|c a IH]; intros i last; cbn [append String.length].
  - rewrite LastIndex_from_cons, prefix_single, Ascii.eqb_refl.
    rewrite (LastIndex_from_free _ _ _ Hb). f_equal. lia.
  - rewrite LastIndex_from_cons, IH. f_equal. lia.
Qed.

Lemma Index_from_app (a b : string) :
  free_of ":" a = true ->
  forall i : nat,
    Index_from i (a ++ String ":" b) ":" = Some (i + String.length a).
Proof.
  intros Ha. induction a as [|c a IH]; intros i; cbn [append String.length].
  - cbn [Index_from]. rewrite prefix_single, Ascii.eqb_refl. f_equal. lia.
  - cbn [free_of] in Ha. apply andb_true_iff in Ha as [Hc Ha].
    cbn [Index_from]. rewrite prefix_single, Ascii.eqb_sym.
    apply negb_true_iff in Hc. rewrite Hc, (IH Ha). f_equal. lia.
Qed.

Lemma drop_app_cons (a b : string) (c : ascii) :
  drop (S (String.length a)) (a ++ String c b) = b.
Proof. induction a as [|x a IH]; cbn; [now destruct b | exact IH]. Qed.

(** X3.  The two parsers undo the making of a size tag: from the tag
    dns:"size-E:M" with no colon in E or in M, [structTag] gives back E
    and [structMember] gives back M, for every encoding name E, known to
    the generator or not. *)
Theorem size_tag_round_trip :
  forall enc member : string,
    free_of ":" enc = true ->
    free_of ":" member = true ->
    structTag (dnsTag ("size-" ++ enc ++ ":" ++ member)) = enc
    /\ structMember (dnsTag ("size-" ++ enc ++ ":" ++ member)) = member.
Proof.
  intros enc member Henc Hmem.
  assert (Hq : free_of ":" (member ++ dq) = true)
    by (rewrite free_of_app, Hmem; reflexivity).
  assert (Hshape : dnsTag ("size-" ++ enc ++ ":" ++ member)
                   = dnsPrefix "size-" ++ (enc ++ String ":" (member ++ dq))).
  { unfold dnsTag, dnsPrefix. cbn. now rewrite append_assoc. }
  rewrite Hshape. split.
  - unfold structTag, TrimPrefix, HasPrefix.
    rewrite prefix_app_r, drop_app. unfold Cut, Index.
    rewrite (Index_from_app enc _ Henc). cbn [fst Nat.add].
    apply take_app.
  - rewrite <- append_assoc. unfold structMember, LastIndex.
    rewrite (LastIndex_from_app _ _ Hq).
    replace (Z.to_nat (Z.of_nat (0 + String.length (dnsPrefix "size-" ++ enc)) + 1))
      with (S (String.length (dnsPrefix "size-" ++ enc))) by lia.
    rewrite drop_app_cons. apply TrimSuffix_app_dq.
Qed.

Lemma size_tag_round_trip_witness :
  structTag (dnsTag "size-rot13:PublicKeyLength") = "rot13"
  /\ structMember (dnsTag "size-rot13:PublicKeyLength") = "PublicKeyLength".
Proof.
  exact (size_tag_round_trip "rot13" "PublicKeyLength" eq_refl eq_refl).
Defined.

(* ------------------------------------------------------------------ *)
(** ** What getTypeStruct returns                                      *)
(* ------------------------------------------------------------------ *)

(** X4.  The struct [getTypeStruct] returns is never empty and begins
    with a field of the header type, however many embedded structs were
    crossed to reach it; the boolean is false exactly when that struct is
    the underlying struct of the type itself, and true when it was taken
    from the type of an embedded first field. *)
Theorem getTypeStruct_innermost :
  forall (scope : Scope) (t : GoType) (st : StructT) (b : bool),
    getTypeStruct t scope = Ret (Some st, b) ->
    (exists f0 rest hdr,
        st = f0 :: rest
        /\ Lookup scope "RR_Header" = Some hdr
        /\ same_type (Type_ f0) (ObjType hdr) = true)
    /\ (b = false <-> Underlying t = Struct st)
    /\ (b = true ->
        exists g0 rest' b',
          Underlying t = Struct (g0 :: rest')
          /\ Anonymous g0 = true
          /\ getTypeStruct (Type_ g0) scope = Ret (Some st, b')).
Proof.
  intros scope t. induction t as [t IH] using first_field_ind.
  intros st b H. rewrite getTypeStruct_unfold in H.
  destruct (Underlying t) as [ | | |[|g0 rest']| ] eqn:Hu; try discriminate H.
  destruct (Lookup scope "RR_Header") as [hdr|] eqn:Hl; [|discriminate H].
  destruct (same_type (Type_ g0) (ObjType hdr)) eqn:Hs.
  - injection H as <- <-. split; [eauto 6|]. split; [tauto | discriminate].
  - destruct (Anonymous g0) eqn:Ha; [|discriminate H].
    destruct (getTypeStruct (Type_ g0) scope) as [[[st'|] b']| |] eqn:Hg;
      try discriminate H.
    cbn [bind fst] in H. injection H as <- <-.
    destruct (IH g0 rest' eq_refl st' b' Hg) as [[f0 [rest [h [E [Hh Hf]]]]] _].
    split; [eauto 6|]. split.
    + split; [discriminate|]. intros E'. injection E' as E'.
      subst st'. injection E' as <- _.
      injection Hh as <-. congruence.
    + intros _. eauto 6.
Qed.

Lemma getTypeStruct_innermost_witness :
  exists f0 rest hdr,
    Samples.Example = f0 :: rest
    /\ Lookup Samples.scope "RR_Header" = Some hdr
    /\ same_type (Type_ f0) (ObjType hdr) = true.
Proof.
  exact (proj1 (getTypeStruct_innermost Samples.scope
                  (Named "Wrapped" (Struct Samples.Wrapped))
                  Samples.Example true eq_refl)).
Defined.

(* ------------------------------------------------------------------ *)
(** ** A package without the header                                    *)
(* ------------------------------------------------------------------ *)

Lemma getTypeStruct_no_header (scope : Scope) (t : GoType) :
  Lookup scope "RR_Header" = None ->
  getTypeStruct t scope = Panic \/ getTypeStruct t scope = Ret (None, false).
Proof.
  intros Hl. rewrite getTypeStruct_unfold, Hl.
  destruct (Underlying t) as [ | | |[|f0 rest]| ]; auto.
Qed.

Lemma collect_no_header (scope : Scope) :
  Lookup scope "RR_Header" = None ->
  forall names, collect scope names = Panic \/ collect scope names = Ret [].
Proof.
  intros Hl. induction names as [|n names IH]; cbn [collect]; [now right|].
  destruct (Lookup scope n) as [o|]; [|exact IH].
  destruct (Exported o); cbn [negb]; [|exact IH].
  destruct (getTypeStruct_no_header scope (ObjType o) Hl) as [-> | ->];
    cbn [bind fst]; [now left | exact IH].
Qed.

(** X5.  When the package declares no RR_Header, no method is ever
    written: the run panics in [getTypeStruct], or it keeps no type and
    the buffer holds the header and the two comments only. *)
Theorem no_header_no_methods :
  forall scope : Scope,
    Lookup scope "RR_Header" = None ->
    generate scope = Panic \/ generate scope = Ret emptyArtifact.
Proof.
  intros scope Hl. unfold generate.
  destruct (collect_no_header scope Hl (Names scope)) as [-> | ->];
    [now left | now right].
Qed.

Lemma no_header_no_methods_witness :
  generate [mkObject "Example" true (Named "Example" (Struct Samples.Example))]
  = Panic
  \/ generate [mkObject "Example" true (Named "Example" (Struct Samples.Example))]
     = Ret emptyArtifact.
Proof.
  exact (no_header_no_methods
           [mkObject "Example" true (Named "Example" (Struct Samples.Example))]
           eq_refl).
Defined.

(* ------------------------------------------------------------------ *)
(** ** The collected names                                             *)
(* ------------------------------------------------------------------ *)

(** X6.  When the collection loop returns, the names it kept are the
    names of the scope that pass [kept], in the order of the scope and as
    often as they are listed: nothing is reordered, an unexported name,
    a type that is not a record and PrivateRR are never kept. *)
Theorem collect_is_filter :
  forall (scope : Scope) (names l : list string),
    collect scope names = Ret l ->
    l = filter (kept scope) names /\ ~ In "PrivateRR" l.
Proof.
  intros scope names l H.
  assert (E : l = filter (kept scope) names).
  { revert l H. induction names as [|n names IH]; intros l H;
      cbn [collect] in H; cbn [filter].
    - now injection H as <-.
    - unfold kept at 1.
      destruct (Lookup scope n) as [o|] eqn:Ho; [|auto].
      pose proof (Lookup_name _ _ _ Ho) as Hn.
      destruct (Exported o); cbn [negb andb] in *; [|auto].
      destruct (getTypeStruct (ObjType o) scope) as [[[st|] b]| |];
        cbn [bind fst] in H; try discriminate H; [|auto].
      destruct (n =? "PrivateRR"); cbn [negb andb]; [auto|].
      destruct (isNil (Lookup scope ("Type" ++ ObjName o))
                && negb (ObjName o =? "RFC3597")); [discriminate H|].
      destruct (collect scope names) as [l'| |]; try discriminate H.
      cbn [bind] in H. injection H as <-. rewrite Hn. f_equal. now apply IH. }
  split; [exact E|]. rewrite E. intros Hin.
  apply filter_In in Hin as [_ Hk]. unfold kept in Hk.
  destruct (Lookup scope "PrivateRR"); [|discriminate Hk].
  rewrite andb_false_r in Hk. discriminate Hk.
Qed.

Lemma collect_is_filter_witness :
  ["Example"; "RFC3597"; "Wrapped"]
  = filter (kept Samples.scope) (Names Samples.scope)
  /\ ~ In "PrivateRR" ["Example"; "RFC3597"; "Wrapped"].
Proof.
  exact (collect_is_filter Samples.scope (Names Samples.scope)
           ["Example"; "RFC3597"; "Wrapped"] eq_refl).
Defined.

(* ------------------------------------------------------------------ *)
(** ** Which field each step works on                                  *)
(* ------------------------------------------------------------------ *)

Ltac step_done evs :=
  subst evs; cbv iota;
  first [ reflexivity
        | eexists; split; [|split; [|reflexivity]]; reflexivity ].

(** The pack step of a field packs that field. *)
Lemma packField_step (name : string) (f : Field) (evs : list Emit) :
  packField name f = Ret evs ->
  if ignored f then evs = []
  else exists e, isPackStep e = true /\ packTarget e = Some (Name f) /\ evs = [e].
Proof.
  unfold packField, packSlice, packScalar, packBasic, ignored. intros H.
  destruct (isSlice (Type_ f)).
  - walk H; step_done evs.
  - walk H; try (step_done evs).
    destruct (Type_ f) as [[]| | | | ]; walk H; step_done evs.
Qed.

Ltac gateway_tag :=
  match goal with
  | H : (_ || _) = true |- _ =>
      apply orb_true_iff in H; destruct H as [H|H]; apply String.eqb_eq in H;
      auto
  end.

Ltac unpack_step_done evs :=
  subst evs; cbv iota;
  first [ reflexivity
        | eexists; split; [|split; [|reflexivity]];
          [reflexivity | first [ left; reflexivity
                               | right; split; [reflexivity | gateway_tag] ]] ].

(** The unpack step of a field assigns that field, the gateway step
    apart, which assigns GatewayAddr and GatewayHost. *)
Lemma unpackFieldAt_step (name : string) (n i : nat) (f : Field) (evs : list Emit) :
  unpackFieldAt name n i f = Ret evs ->
  if ignored f then evs = []
  else exists e,
      isFieldStep e = true
      /\ (unpackTargets e = [Name f]
          \/ (e = UnpackGateway
              /\ (Tag f = dnsTag "ipsechost" \/ Tag f = dnsTag "amtrelayhost")))
      /\ evs = e :: (if checked n i f then [EmptyCheck] else []).
Proof.
  unfold unpackFieldAt, checked, sizeForm, ignored. intros H.
  destruct (HasPrefix (Tag f) (dnsPrefix "size-")) eqn:Hsize.
  - rewrite (sizeForm_not_ignored _ Hsize). cbn [negb andb].
    unfold unpackSize in H. walk H; unpack_step_done evs.
  - cbn [negb andb]. destruct (isSlice (Type_ f)); cbn [negb andb].
    + unfold unpackSlice in H. walk H; unpack_step_done evs.
    + unfold unpackScalar, unpackBasic in H.
      destruct (Tag f =? dnsTag "-");
        [cbn [bind] in H; walk H; unpack_step_done evs|].
      walk H; try (cbn [bind] in H; walk H; unpack_step_done evs).
      destruct (Type_ f) as [[]| | | | ]; cbn [bind] in H; walk H;
        unpack_step_done evs.
Qed.

(** The steps of a returning loop, field by field. *)
Lemma fieldLoop_Forall2 (body : nat -> Field -> outcome (list Emit))
  (p : Emit -> bool) (q : Field -> bool) (R : Field -> Emit -> Prop) :
  (forall i f e, body i f = Ret e ->
     if q f then exists x, R f x /\ filter p e = [x] else filter p e = []) ->
  forall fs i r,
    fieldLoop body i fs = Ret r -> Forall2 R (filter q fs) (filter p r).
Proof.
  intros Hbody. induction fs as [|f fs IH]; intros i r H; cbn [fieldLoop] in H.
  - injection H as <-. constructor.
  - destruct (body i f) as [e| |] eqn:He; try discriminate H.
    cbn [bind] in H.
    destruct (fieldLoop body (S i) fs) as [r'| |] eqn:Hr; try discriminate H.
    cbn [bind] in H. injection H as <-.
    rewrite filter_app. cbn [filter]. apply Hbody in He. apply IH in Hr.
    destruct (q f).
    + destruct He as [x [Hx ->]]. now constructor.
    + now rewrite He.
Qed.

Lemma Forall2_packTarget (fs : list Field) (es : list Emit) :
  Forall2 (fun f e => packTarget e = Some (Name f)) fs es ->
  map packTarget es = map (fun f => Some (Name f)) fs.
Proof. induction 1 as [|f e fs es H _ IH]; cbn [map]; congruence. Qed.

(** X7.  The pack method packs the fields in the order of the struct:
    the fields of its steps are the names of the fields after the first
    that are not ignored, one step each, in order. *)
Theorem pack_steps_follow_fields :
  forall (name : string) (st : StructT) (p : list Emit),
    packRoutine name st = Ret p ->
    map packTarget (filter isPackStep p)
    = map (fun f => Some (Name f)) (liveFields st).
Proof.
  intros name st p H.
  destruct (packRoutine_inv _ _ _ H) as [body [Hloop ->]].
  change (PackFunc name :: body ++ [PackReturn])%list
    with ([PackFunc name] ++ body ++ [PackReturn])%list.
  rewrite !filter_app. cbn [filter isPackStep app]. rewrite app_nil_r.
  apply Forall2_packTarget.
  refine (fieldLoop_Forall2 _ isPackStep (fun f => negb (ignored f)) _ _
            (tl st) 1 body Hloop).
  intros i f e He. apply packField_step in He.
  destruct (ignored f); cbn [negb]; [now subst e|].
  destruct He as [x [Hx [Ht ->]]]. exists x. cbn [filter]. now rewrite Hx.
Qed.

Lemma pack_steps_follow_fields_witness :
  map packTarget
    (filter isPackStep
       [PackFunc "Salted";
        PackStep ("off, err = packUint8(rr.%s, msg, off)" ++ nl) "SaltLength";
        PackSalt "Salt"; PackReturn])
  = map (fun f => Some (Name f)) (liveFields Samples.Salted).
Proof.
  exact (pack_steps_follow_fields "Salted" Samples.Salted _ eq_refl).
Defined.

(** X8.  The unpack method reads the fields in the order of the struct:
    its field steps correspond one to one, in order, to the fields after
    the first that are not ignored, and each step assigns the field it
    stands for, except the gateway step, which stands for a field tagged
    ipsechost or amtrelayhost and assigns GatewayAddr and GatewayHost. *)
Theorem unpack_steps_follow_fields :
  forall (name : string) (st : StructT) (u : list Emit),
    unpackRoutine name st = Ret u ->
    Forall2
      (fun f e =>
         unpackTargets e = [Name f]
         \/ (e = UnpackGateway
             /\ (Tag f = dnsTag "ipsechost" \/ Tag f = dnsTag "amtrelayhost")))
      (liveFields st) (filter isFieldStep u).
Proof.
  intros name st u H.
  destruct (unpackRoutine_inv _ _ _ H) as [body [Hloop ->]].
  change (UnpackFunc name :: UnpackCursor :: body ++ [TrailingCheck; UnpackReturn])%list
    with ([UnpackFunc name; UnpackCursor] ++ body ++ [TrailingCheck; UnpackReturn])%list.
  rewrite !filter_app. cbn [filter isFieldStep app]. rewrite app_nil_r.
  refine (fieldLoop_Forall2 _ isFieldStep (fun f => negb (ignored f)) _ _
            (tl st) 1 body Hloop).
  intros i f e He. apply unpackFieldAt_step in He.
  destruct (ignored f); cbn [negb]; [now subst e|].
  destruct He as [x [Hx [Ht ->]]]. exists x. split; [exact Ht|].
  cbn [filter]. rewrite Hx. now destruct (checked (NumFields st) i f).
Qed.

Lemma unpack_steps_follow_fields_witness :
  Forall2
    (fun f e =>
       unpackTargets e = [Name f]
       \/ (e = UnpackGateway
           /\ (Tag f = dnsTag "ipsechost" \/ Tag f = dnsTag "amtrelayhost")))
    (liveFields Samples.Example)
    (filter isFieldStep
       [UnpackFunc "Example"; UnpackCursor;
        ReadInt "Uint16" "A"; EmptyCheck;
        UnpackField "B" "unpackStringTxt";
        UnpackFieldRest "C" "unpackStringHex";
        TrailingCheck; UnpackReturn]).
Proof.
  exact (unpack_steps_follow_fields "Example" Samples.Example _ eq_refl).
Defined.

(* ------------------------------------------------------------------ *)
(** ** One pack and one unpack method per kept type                    *)
(* ------------------------------------------------------------------ *)

Lemma fieldLoop_Forall (body : nat -> Field -> outcome (list Emit))
  (P : Emit -> Prop) (fs0 : list Field) :
  (forall i f e, In f fs0 -> body i f = Ret e -> Forall P e) ->
  forall fs i r,
    incl fs fs0 -> fieldLoop body i fs = Ret r -> Forall P r.
Proof.
  intros Hbody. induction fs as [|f fs IH]; intros i r Hincl H;
    cbn [fieldLoop] in H.
  - injection H as <-. constructor.
  - destruct (body i f) as [e| |] eqn:He; try discriminate H.
    cbn [bind] in H.
    destruct (fieldLoop body (S i) fs) as [r'| |] eqn:Hr; try discriminate H.
    cbn [bind] in H. injection H as <-.
    apply Forall_app. split.
    + apply (Hbody i f e); [apply Hincl; now left | exact He].
    + apply (IH (S i) r'); [|exact Hr]. intros x Hx. apply Hincl. now right.
Qed.

Lemma no_funcs (b : list Emit) :
  Forall (fun e => isPackStep e || isFieldStep e || isEmptyCheck e = true) b ->
  packFuncs b = [] /\ unpackFuncs b = [].
Proof.
  induction 1 as [|e b He _ [IHp IHu]]; [split; reflexivity|].
  unfold packFuncs, unpackFuncs in *. cbn [flat_map]. rewrite IHp, IHu.
  destruct e; try discriminate He; split; reflexivity.
Qed.

Lemma packRoutine_funcs (name : string) (st : StructT) (p : list Emit) :
  packRoutine name st = Ret p -> packFuncs p = [name] /\ unpackFuncs p = [].
Proof.
  intros H. destruct (packRoutine_inv _ _ _ H) as [body [Hloop ->]].
  destruct (no_funcs body) as [Hp Hu].
  { refine (fieldLoop_Forall _ _ (tl st) _ (tl st) 1 body (incl_refl _) Hloop).
    intros i f e _ He. apply packField_shape in He.
    destruct (ignored f); [subst e; constructor|].
    destruct He as [x [Hx ->]]. constructor; [now rewrite Hx | constructor]. }
  unfold packFuncs, unpackFuncs in *. cbn [flat_map app].
  rewrite !flat_map_app, Hp, Hu. split; reflexivity.
Qed.

Lemma unpackRoutine_funcs (name : string) (st : StructT) (u : list Emit) :
  unpackRoutine name st = Ret u -> packFuncs u = [] /\ unpackFuncs u = [name].
Proof.
  intros H. destruct (unpackRoutine_inv _ _ _ H) as [body [Hloop ->]].
  destruct (no_funcs body) as [Hp Hu].
  { pose proof (unpackBody_events _ _ _ _ (fieldLoop_unpackBody _ _ _ _ _ Hloop))
      as Hev.
    eapply Forall_impl; [|exact Hev]. intros e He. cbn beta in He.
    destruct (isPackStep e); [reflexivity | exact He]. }
  unfold packFuncs, unpackFuncs in *. cbn [flat_map app].
  rewrite !flat_map_app, Hp, Hu. split; reflexivity.
Qed.

Lemma structsOf_names (scope : Scope) :
  forall names sl, structsOf scope names = Ret sl -> map fst sl = names.
Proof.
  induction names as [|n names IH]; intros sl H; cbn [structsOf] in H.
  - now injection H as <-.
  - destruct (structOf scope n) as [st| |]; try discriminate H. cbn [bind] in H.
    destruct (structsOf scope names) as [sl'| |]; try discriminate H.
    cbn [bind] in H. injection H as <-. cbn [map fst]. f_equal. now apply IH.
Qed.

Lemma emitSchemas_funcs (routine : string -> StructT -> outcome (list Emit))
  (mine other : list Emit -> list string) :
  (forall a b, mine (a ++ b)%list = (mine a ++ mine b)%list) ->
  (forall a b, other (a ++ b)%list = (other a ++ other b)%list) ->
  mine [] = [] -> other [] = [] ->
  (forall name st e, routine name st = Ret e -> mine e = [name] /\ other e = []) ->
  forall sl r,
    emitSchemas routine sl = Ret r -> mine r = map fst sl /\ other r = [].
Proof.
  intros Hm Ho Hm0 Ho0 Hr. induction sl as [|[n st] sl IH]; intros r H;
    cbn [emitSchemas] in H.
  - injection H as <-. split; assumption.
  - destruct (routine n st) as [e| |] eqn:He; try discriminate H.
    cbn [bind] in H.
    destruct (emitSchemas routine sl) as [r'| |]; try discriminate H.
    cbn [bind] in H. injection H as <-.
    destruct (Hr _ _ _ He) as [E1 E2]. destruct (IH r' eq_refl) as [E3 E4].
    rewrite Hm, Ho, E1, E2, E3, E4. split; reflexivity.
Qed.

(** X9.  A run that returns has written exactly one pack method and one
    unpack method per kept name, both series in the order the names were
    collected; no method is written for any other name. *)
Theorem one_method_pair_per_kept_type :
  forall (scope : Scope) (b : list Emit),
    generate scope = Ret b ->
    exists l,
      collect scope (Names scope) = Ret l
      /\ packFuncs b = l
      /\ unpackFuncs b = l.
Proof.
  intros scope b H. unfold generate in H.
  destruct (collect scope (Names scope)) as [l| |] eqn:Hc; try discriminate H.
  cbn [bind] in H. exists l. split; [reflexivity|].
  destruct (structsOf_returns scope l (collect_kept scope _ _ Hc)) as [sl Hsl].
  rewrite !(emitLoop_structsOf _ scope l sl Hsl) in H.
  destruct (emitSchemas packRoutine sl) as [packs| |] eqn:Hp; try discriminate H.
  cbn [bind] in H.
  destruct (emitSchemas unpackRoutine sl) as [unpacks| |] eqn:Hu;
    try discriminate H.
  cbn [bind] in H. injection H as <-.
  destruct (emitSchemas_funcs packRoutine packFuncs unpackFuncs
              (flat_map_app _) (flat_map_app _) eq_refl eq_refl
              packRoutine_funcs sl packs Hp) as [P1 P2].
  destruct (emitSchemas_funcs unpackRoutine unpackFuncs packFuncs
              (flat_map_app _) (flat_map_app _) eq_refl eq_refl
              (fun n s e H => let (a, c) := unpackRoutine_funcs n s e H in conj c a)
              sl unpacks Hu) as [U1 U2].
  rewrite (structsOf_names scope l sl Hsl) in P1, U1.
  unfold packFuncs, unpackFuncs in *. cbn [flat_map app].
  rewrite !flat_map_app. cbn [flat_map app].
  rewrite P1, P2, U1, U2, app_nil_r. split; reflexivity.
Qed.

Lemma one_method_pair_per_kept_type_witness :
  exists b l,
    generate Samples.scope = Ret b
    /\ collect Samples.scope (Names Samples.scope) = Ret l
    /\ packFuncs b = l /\ unpackFuncs b = l.
Proof.
  eexists.
  destruct (one_method_pair_per_kept_type Samples.scope _ eq_refl) as [l H].
  exists l. split; [reflexivity | exact H].
Defined.

(* ------------------------------------------------------------------ *)
(** ** The two loops do not accept the same fields                     *)
(* ------------------------------------------------------------------ *)

Lemma scalar_unpack_resolvable (name : string) (n i : nat) (f : Field)
  (u : list Emit) :
  isSlice (Type_ f) = false ->
  unpackFieldAt name n i f = Ret u -> resolvable f = true.
Proof.
  intros Hslice Hu. destruct (resolvable f) eqn:H; [reflexivity|]. exfalso.
  unfold resolvable in H. unfold unpackFieldAt in Hu.
  fold (sizeForm (Tag f)) in Hu. rewrite Hslice in *.
  destruct (sizeForm (Tag f)) eqn:Hsize.
  - unfold unpackSize in Hu. unfold sizeRecognised in H. split_mem H.
    rewrite Hno, Hno0, Hno1 in Hu. discriminate Hu.
  - destruct (String.eqb_spec (Tag f) "") as [Hempty|Hne].
    + unfold unpackScalar, unpackBasic in Hu. rewrite Hempty in Hu. cbn in Hu.
      destruct (Type_ f) as [k| | | | ]; try discriminate Hu.
      destruct k; discriminate.
    + apply String.eqb_neq in Hne. unfold unpackScalar in Hu. split_mem H.
      rewrite Hno, Hno0, Hno1, Hno2, Hno3, Hno4, Hno5, Hno6, Hno7, Hno8,
        Hno9, Hno10, Hno11, Hno12, Hne in Hu. discriminate Hu.
Qed.

Lemma slice_pack_resolvable (name : string) (f : Field) (p : list Emit) :
  isSlice (Type_ f) = true ->
  packField name f = Ret p -> resolvable f = true.
Proof.
  intros Hslice Hp. destruct (resolvable f) eqn:H; [reflexivity|]. exfalso.
  unfold resolvable in H. unfold packField, packSlice in Hp. rewrite Hslice in *.
  split_mem H. rewrite Hno, Hno0, Hno1, Hno2, Hno3, Hno4, Hno5 in Hp.
  discriminate Hp.
Qed.

(** X10.  The two loops accept different fields.  A field that is not a
    slice and passes the unpack loop passes the pack loop, but not the other
    way round: the pack loop takes any tag that begins like a size tag of
    a known encoding.  A slice field that passes the pack loop passes the
    unpack loop, but not the other way round: the unpack loop tests the
    size prefix before the shape. *)
Theorem loops_accept_different_fields :
  forall (name : string) (n i : nat) (f : Field),
    (isSlice (Type_ f) = false ->
     forall u, unpackFieldAt name n i f = Ret u ->
               exists p, packField name f = Ret p)
    /\ (isSlice (Type_ f) = true ->
        forall p, packField name f = Ret p ->
                  exists u, unpackFieldAt name n i f = Ret u)
    /\ (exists g p, isSlice (Type_ g) = false
                    /\ packField name g = Ret p
                    /\ aborts (unpackFieldAt name n i g))
    /\ (exists g u, isSlice (Type_ g) = true
                    /\ unpackFieldAt name n i g = Ret u
                    /\ aborts (packField name g)).
Proof.
  intros name n i f. split; [|split; [|split]].
  - intros Hslice u Hu.
    destruct (resolvable_returns name n i f
                (scalar_unpack_resolvable name n i f u Hslice Hu)) as [p [_ [Hp _]]].
    eauto.
  - intros Hslice p Hp.
    destruct (resolvable_returns name n i f
                (slice_pack_resolvable name f p Hslice Hp)) as [_ [u [_ Hu]]].
    eauto.
  - exists (mkField "F" false (Basic String_) (dnsTag "size-hexdump:N")).
    eexists. split; [reflexivity|]. split; [reflexivity | exact I].
  - exists (mkField "F" false (Slice (Basic String_)) (dnsTag "size-hex:N")).
    eexists. split; [reflexivity|]. split; [reflexivity | exact I].
Qed.

Lemma loops_accept_different_fields_witness :
  exists p,
    packField "HIP" (mkField "Hit" false (Basic String_) (dnsTag "size-hex:HitLength"))
    = Ret p.
Proof.
  exact (proj1 (loops_accept_different_fields "HIP" 5 3
                  (mkField "Hit" false (Basic String_) (dnsTag "size-hex:HitLength")))
           eq_refl _ eq_refl).
Defined.

(* ------------------------------------------------------------------ *)
(** ** The first field that fails ends the run                         *)
(* ------------------------------------------------------------------ *)

Lemma fieldLoop_app (body : nat -> Field -> outcome (list Emit)) :
  forall pre rest i,
    fieldLoop body i (pre ++ rest)%list
    = (r1 <- fieldLoop body i pre ;;
       r2 <- fieldLoop body (i + List.length pre) rest ;;
       Ret (r1 ++ r2)%list).
Proof.
  induction pre as [|f pre IH]; intros rest i; cbn [fieldLoop app List.length].
  - rewrite Nat.add_0_r. cbn [bind].
    destruct (fieldLoop body i rest); reflexivity.
  - destruct (body i f) as [e| |]; cbn [bind]; try reflexivity.
    rewrite IH. replace (S i + List.length pre) with (i + S (List.length pre)) by lia.
    destruct (fieldLoop body (S i) pre) as [r1| |]; cbn [bind]; try reflexivity.
    destruct (fieldLoop body (i + S (List.length pre)) rest) as [r2| |];
      cbn [bind]; try reflexivity.
    now rewrite app_assoc.
Qed.

(** X11.  Each loop stops at the first field it cannot handle: when the
    fields before [f] go through, the method of the type ends as the
    iteration on [f] ends, with its fatal message or its panic, whatever
    the fields after [f] are. *)
Theorem first_failing_field_decides :
  forall (name : string) (f0 f : Field) (pre post : list Field) (r : list Emit),
    let st := (f0 :: pre ++ f :: post)%list in
    (fieldLoop (fun _ g => packField name g) 1 pre = Ret r ->
     aborts (packField name f) ->
     packRoutine name st = (e <- packField name f ;; Ret e))
    /\ (fieldLoop (unpackFieldAt name (NumFields st)) 1 pre = Ret r ->
        aborts (unpackFieldAt name (NumFields st) (S (List.length pre)) f) ->
        unpackRoutine name st
        = (e <- unpackFieldAt name (NumFields st) (S (List.length pre)) f ;; Ret e)).
Proof.
  intros name f0 f pre post r st. split; intros Hpre Hab.
  - unfold packRoutine, st. cbn [tl]. rewrite fieldLoop_app, Hpre.
    cbn [bind fieldLoop].
    destruct (packField name f); [destruct Hab | reflexivity | reflexivity].
  - unfold unpackRoutine. unfold st at 2. cbn [tl]. rewrite fieldLoop_app, Hpre.
    cbn [bind fieldLoop Nat.add].
    destruct (unpackFieldAt name (NumFields st) (S (List.length pre)) f);
      [destruct Hab | reflexivity | reflexivity].
Qed.

Lemma first_failing_field_decides_witness :
  packRoutine "X"
    [mkField "Hdr" false Samples.RR_Header "";
     mkField "A" false (Basic Uint16) "";
     mkField "B" false (Basic String_) (dnsTag "bogus");
     mkField "C" false (Basic Float64) ""]
  = Fatal ["X"; "B"; dnsTag "bogus"].
Proof.
  exact (proj1 (first_failing_field_decides "X"
                  (mkField "Hdr" false Samples.RR_Header "")
                  (mkField "B" false (Basic String_) (dnsTag "bogus"))
                  [mkField "A" false (Basic Uint16) ""]
                  [mkField "C" false (Basic Float64) ""]
                  [PackStep ("off, err = packUint16(rr.%s, msg, off)" ++ nl) "A"])
           eq_refl I).
Defined.

(* ------------------------------------------------------------------ *)
(** ** Running the pack method                                         *)
(* ------------------------------------------------------------------ *)

Section PackRuns.

Variable heap : Type.
Variable packCall :
  string -> string -> record -> heap -> Z -> heap * Z * option error.
Variable rr : record.


End PackRuns.



(* ------------------------------------------------------------------ *)
(** ** What the unpack method leaves alone                             *)
(* ------------------------------------------------------------------ *)

Section UnpackFrame.

Variable unpackCall : string -> extra -> list Z -> value * list Z * option error.
Variable readInt : string -> list Z -> option (value * list Z).
Variable gateway : list Z -> list Z -> value -> value * value * list Z * option error.
Variables data msgBuf : list Z.

Lemma assign_other (rr : record) (f g : string) (v : value) :
  f <> g -> assign rr f v g = rr g.
Proof.
  intros Hne. unfold assign.
  destruct (String.eqb_spec g f) as [E|_]; [now elim Hne | reflexivity].
Qed.

(** A statement changes only the fields it assigns. *)
Lemma step_frame (e : Emit) (st : record * list Z) (g : string) :
  ~ In g (unpackTargets e) ->
  match execUnpack unpackCall readInt gateway data msgBuf e st with
  | Next st' => fst st' g = fst st g
  | Return (st', _) => fst st' g = fst st g
  end.
Proof.
  destruct st as [rr s]. intros Hg.
  destruct e; cbn [execUnpack fst snd]; try reflexivity;
    cbn [unpackTargets In] in Hg; unfold unpackPrimitive; cbn [fst snd].
  - destruct (unpackCall unpacker NoExtra s) as [[v s'] [err|]]; cbn [fst];
      apply assign_other; tauto.
  - destruct (unpackCall unpacker (WithBuf msgBuf) s) as [[v s'] [err|]];
      cbn [fst]; apply assign_other; tauto.
  - destruct (unpackCall unpacker _ s) as [[v s'] [err|]]; cbn [fst];
      apply assign_other; tauto.
  - destruct (unpackCall unpacker _ s) as [[v s'] [err|]]; cbn [fst];
      apply assign_other; tauto.
  - destruct (readInt type_ s) as [[v s']|]; cbn [fst];
      [apply assign_other; tauto | reflexivity].
  - destruct (gateway s msgBuf (rr "GatewayType")) as [[[a h] s'] [err|]];
      cbn [fst]; rewrite !assign_other; tauto.
  - destruct s; reflexivity.
  - destruct s; reflexivity.
Qed.

Lemma run_frame (b : list Emit) (g : string) :
  Forall (fun e => ~ In g (unpackTargets e)) b ->
  forall st,
    match run (execUnpack unpackCall readInt gateway data msgBuf) b st with
    | Next st' => fst st' g = fst st g
    | Return (st', _) => fst st' g = fst st g
    end.
Proof.
  induction 1 as [|e b He _ IH]; intros st; cbn [run]; [reflexivity|].
  pose proof (step_frame e st g He) as Hs.
  destruct (execUnpack unpackCall readInt gateway data msgBuf e st)
    as [st'|[st' err]].
  - specialize (IH st').
    destruct (run _ b st') as [st''|[st'' err]]; congruence.
  - exact Hs.
Qed.

End UnpackFrame.

(** X13.  Run over any codec library, an unpack method changes only the
    fields it has a step for: a field whose name is not that of a field
    after the first that is not ignored holds after the run what it held
    before, however the run ends, unless it is GatewayAddr or GatewayHost
    and some field that is not ignored carries the gateway tag.  That
    exception is real: on a record of the shape of IPSECKEY the gateway
    step writes GatewayAddr, although the field is ignored. *)
Theorem unpack_leaves_other_fields :
  (forall (name : string) (st : StructT) (evs : list Emit),
      unpackRoutine name st = Ret evs ->
      forall unpackCall readInt gateway data msgBuf
             (rr0 rr : record) (s0 s : list Z) (err : option error) (g : string),
        run (execUnpack unpackCall readInt gateway data msgBuf) evs (rr0, s0)
        = Return (rr, s, err) ->
        (forall f, In f (liveFields st) -> Name f <> g) ->
        (g = "GatewayAddr" \/ g = "GatewayHost" ->
         forall f, In f (liveFields st) ->
                   Tag f <> dnsTag "ipsechost" /\ Tag f <> dnsTag "amtrelayhost") ->
        rr g = rr0 g)
  /\ (exists evs rr,
        unpackRoutine "IPSECKEY" gatewayRecord = Ret evs
        /\ (forall f, In f gatewayRecord -> Name f = "GatewayAddr" ->
                      ignored f = true)
        /\ run (execUnpack Samples.unpackCall Samples.readInt Samples.gateway
                  [1; 2; 3; 4]%Z []) evs (Samples.rr0, [])
           = Return (rr, [], None)
        /\ rr "GatewayAddr" <> Samples.rr0 "GatewayAddr").
Proof.
  split.
  - intros name st evs H unpackCall readInt gateway data msgBuf rr0 rr s0 s err g
           Hrun Hlive Hgw.
    destruct (unpackRoutine_inv _ _ _ H) as [body [Hloop ->]].
    assert (Hbody : Forall (fun e => ~ In g (unpackTargets e)) body).
    { refine (fieldLoop_Forall _ _ (tl st) _ (tl st) 1 body (incl_refl _) Hloop).
      intros i f e Hin He. apply unpackFieldAt_step in He.
      destruct (ignored f) eqn:Hig; [subst e; constructor|].
      assert (Hlf : In f (liveFields st)).
      { unfold liveFields. apply filter_In. now rewrite Hig. }
      destruct He as [x [_ [Ht ->]]]. constructor.
      - destruct Ht as [-> | [-> Htag]].
        + intros [E|[]]. exact (Hlive f Hlf E).
        + cbn [unpackTargets In]. intros Hg.
          assert (Hor : g = "GatewayAddr" \/ g = "GatewayHost")
            by (destruct Hg as [E|[E|[]]]; auto).
          destruct (Hgw Hor f Hlf) as [N1 N2]. tauto.
      - destruct (checked (NumFields st) i f); repeat constructor; intros []. }
    assert (Hall : Forall (fun e => ~ In g (unpackTargets e))
                     (UnpackFunc name :: UnpackCursor
                        :: body ++ [TrailingCheck; UnpackReturn])%list).
    { constructor; [intros []|]. constructor; [intros []|].
      apply Forall_app. split; [exact Hbody|]. repeat constructor; intros []. }
    pose proof (run_frame unpackCall readInt gateway data msgBuf _ g Hall (rr0, s0))
      as Hf.
    rewrite Hrun in Hf. exact Hf.
  - eexists. eexists. split; [reflexivity|]. split; [|split; [reflexivity|]].
    + intros f Hin Hn. cbn [gatewayRecord In] in Hin.
      destruct Hin as [<-|[<-|[<-|[<-|[<-|[<-|[<-|[]]]]]]]];
        first [ discriminate Hn | reflexivity ].
    + discriminate.
Qed.

Lemma unpack_leaves_other_fields_witness :
  assign (assign (assign Samples.rr0 "A" (VUint 1)) "B" (VData [2%Z]))
    "C" (VData [3%Z]) "GatewayAddr"
  = Samples.rr0 "GatewayAddr".
Proof.
  refine (proj1 unpack_leaves_other_fields "Example" Samples.Example _ eq_refl
            Samples.unpackCall Samples.readInt Samples.gateway
            [1; 2; 3; 4]%Z [] Samples.rr0 _ [] [4%Z] (Some errTrailingRData)
            "GatewayAddr" eq_refl _ _).
  - intros f [<-|[<-|[<-|[]]]]; discriminate.
  - intros _ f [<-|[<-|[<-|[]]]]; split; discriminate.
Defined.

(* ------------------------------------------------------------------ *)
(** ** What getTypeStruct reads of the scope                           *)
(* ------------------------------------------------------------------ *)

(** X14.  [getTypeStruct] reads the scope through the type of RR_Header
    only: on two scopes that give RR_Header the same type, or both none,
    it returns the same struct and the same boolean, or panics on both,
    whatever else the scopes declare. *)
Theorem getTypeStruct_reads_header_only :
  forall (scope1 scope2 : Scope) (t : GoType),
    option_map ObjType (Lookup scope1 "RR_Header")
    = option_map ObjType (Lookup scope2 "RR_Header") ->
    getTypeStruct t scope1 = getTypeStruct t scope2.
Proof.
  intros scope1 scope2 t Hh. induction t as [t IH] using first_field_ind.
  rewrite !getTypeStruct_unfold.
  destruct (Underlying t) as [ | | |[|f0 rest]| ]; try reflexivity.
  destruct (Lookup scope1 "RR_Header") as [h1|], (Lookup scope2 "RR_Header") as [h2|];
    cbn [option_map] in Hh; try discriminate Hh; [|reflexivity].
  injection Hh as ->.
  destruct (same_type (Type_ f0) (ObjType h2)); [reflexivity|].
  destruct (Anonymous f0); [|reflexivity].
  now rewrite (IH f0 rest eq_refl).
Qed.

Lemma getTypeStruct_reads_header_only_witness :
  getTypeStruct (Named "Wrapped" (Struct Samples.Wrapped)) Samples.scope
  = getTypeStruct (Named "Wrapped" (Struct Samples.Wrapped)) Samples.unwired.
Proof.
  exact (getTypeStruct_reads_header_only Samples.scope Samples.unwired
           (Named "Wrapped" (Struct Samples.Wrapped)) eq_refl).
Defined.
